(** * Bootstrap of a filecoin node: [cmd/go-filecoin/init.go]

    A shallow embedding of the [init] command of go-filecoin and the
    properties of its genesis extraction, config synthesis and init-option
    building.  Go functions that return [(value, error)] become computations
    in a small state-and-error monad over the [World] the command acts on;
    run-time panics of Go (index out of range, failed type assertion, nil
    dereference) are outcomes of their own. *)

From stdpp Require Import base option list strings gmap.
From Stdlib Require Import NArith Lia.

(** ** Go values *)

Definition Cid := string.
Definition RawData := list Byte.byte.
(** An [io.ReadCloser], by the bytes it yields. *)
Definition Stream := list Byte.byte.

(** Go's [error] values.  [Errorf] carries the message that [fmt.Errorf]
    builds in [init.go]; the other constructors are errors handed up,
    unchanged, from the packages the command calls. *)
Inductive error : Type :=
| Errorf (msg : string)
| MalformedArchive
| MissingRootBlock
| NotFound (c : Cid)
| Upstream (msg : string).

Inductive panic : Type :=
| IndexOutOfRange (i len : nat)
| SliceBoundsOutOfRange (lo hi : nat)
| NilDereference
| InterfaceConversion (wanted : string).

(** What a call comes to: a value, a returned [error], a run-time panic, or
    (for the model's bounded loops only) no answer within the fuel given. *)
Inductive outcome (A : Type) : Type :=
| Ok (a : A)
| Err (e : error)
| Panic (p : panic)
| OutOfFuel.
Arguments Ok {A} a.
Arguments Err {A} e.
Arguments Panic {A} p.
Arguments OutOfFuel {A}.

(** ** The state-and-error monad *)

Definition ST (S A : Type) : Type := S → S * outcome A.

Definition ST_ret {S A} (a : A) : ST S A := λ s, (s, Ok a).
Definition ST_bind {S A B} (f : A → ST S B) (m : ST S A) : ST S B :=
  λ s, match m s with
       | (s', Ok a) => f a s'
       | (s', Err e) => (s', Err e)
       | (s', Panic p) => (s', Panic p)
       | (s', OutOfFuel) => (s', OutOfFuel)
       end.
#[global] Instance ST_mret S : MRet (ST S) := @ST_ret S.
#[global] Instance ST_mbind S : MBind (ST S) := @ST_bind S.

Definition fail {S A} (e : error) : ST S A := λ s, (s, Err e).
Definition throw {S A} (p : panic) : ST S A := λ s, (s, Panic p).
Definition outOfFuel {S A} : ST S A := λ s, (s, OutOfFuel).
Definition get {S} : ST S S := λ s, (s, Ok s).
Definition modify {S} (f : S → S) : ST S unit := λ s, (f s, Ok ()).
(** A call whose result does not depend on the state. *)
Definition call {S A} (r : outcome A) : ST S A := λ s, (s, r).
Definition skip {S} : ST S unit := mret ().
(** Replaces a returned error: [if err != nil { return nil, h(err) }]. *)
Definition orElse {S A} (m : ST S A) (h : error → ST S A) : ST S A :=
  λ s, match m s with
       | (s', Err e) => h e s'
       | r => r
       end.
(** [p.f] through a pointer: a nil pointer panics. *)
Definition deref {S A} (p : option A) : ST S A :=
  match p with
  | Some a => mret a
  | None => throw NilDereference
  end.

(** [s[i]] on a slice: a run-time panic when out of range. *)
Definition index {S A} (s : list A) (i : nat) : ST S A :=
  match s !! i with
  | Some a => mret a
  | None => throw (IndexOutOfRange i (length s))
  end.

(** [s[lo:]] on a slice: the upper bound defaults to [len(s)], and Go panics
    unless [lo <= len(s)]. *)
Definition sliceFrom {S A} (s : list A) (lo : nat) : ST S (list A) :=
  if decide (lo ≤ length s) then mret (drop lo s)
  else throw (SliceBoundsOutOfRange lo (length s)).

(** ** Data model *)

(** Modelled from the spec: package [block] is not among the sources.  A
    tipset key is the undefined sentinel or a non-empty ordered set of CIDs;
    [block.UndefTipSet.Key()] is the key with no CID. *)
Record TipSetKey : Type := mkTipSetKey { ToSlice : list Cid }.

#[global] Instance TipSetKey_eq_dec : EqDecision TipSetKey.
Proof. solve_decision. Defined.

Definition UndefTipSetKey : TipSetKey := mkTipSetKey [].

Definition Equals (k other : TipSetKey) : bool := bool_decide (k = other).

(** Modelled from the spec: a block is a content-addressed record with a
    [Parents] tipset key; the fields the command never reads are kept as the
    encoding they came from. *)
Record Block : Type := mkBlock { Parents : TipSetKey; blockBody : string }.

#[global] Instance Block_eq_dec : EqDecision Block.
Proof. solve_decision. Defined.

Record CarHeader : Type := mkCarHeader { Roots : list Cid }.

(** What the bytes of an archive decode to: a root list and block records,
    or a failure after some blocks were read. *)
Inductive CarDecode : Type :=
| CarMalformed (written : list (Cid * RawData))
| CarDecoded (roots : list Cid) (blocks : list (Cid * RawData)).

(** go-address: an address wraps the string of its bytes; [Undef] is the
    zero value. *)
Record Address : Type := mkAddress { addrStr : string }.

#[global] Instance Address_eq_dec : EqDecision Address.
Proof. solve_decision. Defined.

Definition Undef : Address := mkAddress "".

(** The three sections of the config that the network presets replace are
    only ever copied as a whole; each is kept as its serialised form. *)
Inductive BootstrapConfig : Type := BootstrapCfg (json : string).
Inductive DrandConfig : Type := DrandCfg (json : string).
Inductive NetworkParamsConfig : Type := NetworkParamsCfg (json : string).

Record SectorBaseConfig : Type := mkSectorBase {
  RootDirPath : string;
  PreSealedSectorsDirPath : string }.

Record MiningConfig : Type := mkMining {
  MinerAddress : Address;
  AutoSealIntervalSeconds_ : N }.

Record Config : Type := mkConfig {
  SectorBase : SectorBaseConfig;
  Mining : MiningConfig;
  Bootstrap : BootstrapConfig;
  Drand : DrandConfig;
  NetworkParams : NetworkParamsConfig;
  (** every other section ([API], [Swarm], [Wallet], ...), untouched here *)
  otherSections : string }.

(** A named network of [fixtures/networks]. *)
Record NetworkConf : Type := mkNetworkConf {
  netBootstrap : BootstrapConfig;
  netDrand : DrandConfig;
  netNetwork : NetworkParamsConfig }.

(** Field assignments [cfg.X.Y = v]. *)
Definition setRootDirPath (dir : string) (cfg : Config) : Config :=
  mkConfig (mkSectorBase dir (PreSealedSectorsDirPath (SectorBase cfg)))
           (Mining cfg) (Bootstrap cfg) (Drand cfg) (NetworkParams cfg) (otherSections cfg).
Definition setPreSealedSectorsDirPath (dir : string) (cfg : Config) : Config :=
  mkConfig (mkSectorBase (RootDirPath (SectorBase cfg)) dir)
           (Mining cfg) (Bootstrap cfg) (Drand cfg) (NetworkParams cfg) (otherSections cfg).
Definition setMinerAddress (a : Address) (cfg : Config) : Config :=
  mkConfig (SectorBase cfg) (mkMining a (AutoSealIntervalSeconds_ (Mining cfg)))
           (Bootstrap cfg) (Drand cfg) (NetworkParams cfg) (otherSections cfg).
Definition setAutoSealIntervalSeconds (n : N) (cfg : Config) : Config :=
  mkConfig (SectorBase cfg) (mkMining (MinerAddress (Mining cfg)) n)
           (Bootstrap cfg) (Drand cfg) (NetworkParams cfg) (otherSections cfg).
Definition setNetwork (net : NetworkConf) (cfg : Config) : Config :=
  mkConfig (SectorBase cfg) (Mining cfg)
           (netBootstrap net) (netDrand net) (netNetwork net) (otherSections cfg).

(** Opaque serialised key records. *)
Inductive PrivKey : Type := MkPrivKey (raw : string).
Inductive KeyInfo : Type := MkKeyInfo (raw : string).

(** Modelled from the spec: the wallet export is an object with a field
    [KeyInfo] holding an ordered sequence of key records. *)
Record WalletSerializeResult : Type := mkWallet { KeyInfo_ : list KeyInfo }.

(** [node.InitOpt]: one directive of the node bootstrap. *)
Inductive InitOpt : Type :=
| PeerKeyOpt (k : PrivKey)
| DefaultKeyOpt (ki : KeyInfo)
| ImportKeyOpt (ki : KeyInfo).

(** [genesis.InitFunc]: the local generator, or the closure of [loadGenesis]
    over the extracted block and its (nil) error. *)
Inductive InitFunc : Type :=
| MakeGenesisFunc
| GenesisFromArchive (genesisBlk : Block) (err : option error).

Record URL : Type := mkURL { Scheme : string; urlRest : string }.

(** Values of a [cmdkit.OptMap] ([map[string]interface{}]). *)
Inductive OptVal : Type :=
| VString (s : string)
| VUint (n : N)
| VBool (b : bool).

Abbreviation OptMap := (gmap string OptVal).

(** [options[k].(string)], with its [ok]. *)
Definition asString (v : option OptVal) : option string :=
  match v with Some (VString s) => Some s | _ => None end.

(** Modelled from the spec: the option names are constants of package
    [commands] declared outside [init.go]; they are the names of the spec's
    option table. *)
Definition GenesisFile : string := "genesis-file".
Definition PeerKeyFile : string := "peer-keyfile".
Definition WalletKeyFile : string := "wallet-keyfile".
Definition WithMiner : string := "with-miner".
Definition OptionSectorDir : string := "sector-dir".
Definition MinerActorAddress : string := "miner-actor-address".
Definition AutoSealIntervalSeconds : string := "auto-seal-interval-seconds".
Definition Network : string := "network".
Definition OptionPresealedSectorDir : string := "presealed-sector-dir".
Definition OptionDrandConfigAddr : string := "drand-config-addr".

(** The options [initCmd] declares, each with the type the command
    framework parses it to ([cmdkit.StringOption], [cmdkit.UintOption]). *)
Inductive OptType : Type := StringOption | UintOption.

Definition initCmdOptions : list (string * OptType) :=
  [ (GenesisFile, StringOption); (PeerKeyFile, StringOption);
    (WalletKeyFile, StringOption); (WithMiner, StringOption);
    (OptionSectorDir, StringOption); (MinerActorAddress, StringOption);
    (AutoSealIntervalSeconds, UintOption); (Network, StringOption);
    (OptionPresealedSectorDir, StringOption); (OptionDrandConfigAddr, StringOption) ].

Definition hasType (v : OptVal) (t : OptType) : bool :=
  match v, t with
  | VString _, StringOption => true
  | VUint _, UintOption => true
  | _, _ => false
  end.

(** The option map of a request to [initCmd]: a declared option that is
    present holds a value of its declared type. *)
Definition wellTyped (options : OptMap) : Prop :=
  Forall (λ d, match options !! d.1 with
               | Some v => hasType v d.2 = true
               | None => True
               end) initCmdOptions.

(** The options [setConfigFromOptions] reads. *)
Definition configOptions : list string :=
  [ OptionSectorDir; WithMiner; AutoSealIntervalSeconds; MinerActorAddress;
    OptionPresealedSectorDir; Network ].

(** ** The world the command acts on *)

(** Calls to collaborators, in the order they were made. *)
Inductive Call : Type :=
| CallEmit (s : string)
| CallInitFSRepo (dir : string)
| CallOpenFSRepo (dir : string)
| CallHTTPGet (url : string)
| CallOsOpen (path : string)
| CallReadFile (path : string)
| CallLoadCar
| CallBlockstoreGet (c : Cid)
| CallDrandConfigure (addr : string)
| CallReplaceConfig (cfg : Config)
| CallNodeInit (gif : InitFunc) (opts : list InitOpt).

Record World : Type := mkWorld {
  (** the config file of each repository directory *)
  configFiles : gmap string Config;
  (** the [Config] object of the open repo: [rep.Config()] points to it *)
  repoConfig : Config;
  (** the directory of the open repo *)
  repoPath : string;
  (** the repo's datastore, as the block store over it *)
  datastore : gmap Cid RawData;
  calls : list Call }.

Definition withCall (w : World) (c : Call) : World :=
  mkWorld (configFiles w) (repoConfig w) (repoPath w) (datastore w) (calls w ++ [c]).
Definition logCall (c : Call) : ST World unit := modify (λ w, withCall w c).

(** The configs handed to [ReplaceConfig], in call order. *)
Definition replaceCalls (l : list Call) : list Config :=
  omap (λ c, match c with CallReplaceConfig cfg => Some cfg | _ => None end) l.
Definition setDatastore (bs : gmap Cid RawData) (w : World) : World :=
  mkWorld (configFiles w) (repoConfig w) (repoPath w) bs (calls w).
Definition setRepoConfig (cfg : Config) (w : World) : World :=
  mkWorld (configFiles w) cfg (repoPath w) (datastore w) (calls w).
Definition setConfigFile (dir : string) (cfg : Config) (w : World) : World :=
  mkWorld (<[dir := cfg]> (configFiles w)) (repoConfig w) (repoPath w) (datastore w) (calls w).
Definition setRepoPath (dir : string) (w : World) : World :=
  mkWorld (configFiles w) (repoConfig w) dir (datastore w) (calls w).

(** Runs a computation on the open repo's [Config] object in place. *)
Definition onRepoConfig {A} (m : ST Config A) : ST World A :=
  λ w, let '(cfg, r) := m (repoConfig w) in (setRepoConfig cfg w, r).

(** The packages and services the command calls and that are not part of
    [init.go]. *)
Record Env : Type := mkEnv {
  OptionRepoDir : string;
  paths_GetRepoPath : string → outcome string;
  re_Emit : string → outcome unit;
  repo_InitFSRepo : string → outcome unit;
  repo_OpenFSRepo : string → outcome unit;
  repo_writeConfig : string → Config → outcome unit;
  config_NewDefaultConfig : Config;
  url_Parse : string → outcome URL;
  http_Get : string → outcome Stream;
  os_Open : string → outcome Stream;
  ioutil_ReadFile : string → outcome (list Byte.byte);
  crypto_UnmarshalPrivateKey : list Byte.byte → outcome PrivKey;
  json_Decode : Stream → outcome (option WalletSerializeResult);
  car_decode : Stream → CarDecode;
  block_DecodeBlock : RawData → outcome Block;
  address_NewFromString : string → Address * option error;
  networks_InteropNet : NetworkConf;
  networks_TestNet : NetworkConf;
  node_DefaultDrandIfaceFromConfig : Config → outcome unit;
  drand_Configure : string → ST Config unit;
  node_Init : InitFunc → list InitOpt → ST World unit }.

(** ** The command *)

Section Command.
Variable env : Env.

(** *** Content-addressed loader and block store *)

Definition putBlocks (blocks : list (Cid * RawData)) (bs : gmap Cid RawData) : gmap Cid RawData :=
  foldl (λ acc b, <[b.1 := b.2]> acc) bs blocks.

(** Modelled from the spec: [car.LoadCar] (package go-car is not among the
    sources) decodes the archive, writes each block it holds into the block
    store under its CID and returns the declared roots; malformed bytes fail
    with [MalformedArchive], leaving what was written in place, and an empty
    root list fails with [MissingRootBlock]. *)
Definition LoadCar (source : Stream) : ST World CarHeader :=
  logCall CallLoadCar;;
  match car_decode env source with
  | CarMalformed written =>
      modify (λ w, setDatastore (putBlocks written (datastore w)) w);;
      fail MalformedArchive
  | CarDecoded [] _ => fail MissingRootBlock
  | CarDecoded roots blocks =>
      modify (λ w, setDatastore (putBlocks blocks (datastore w)) w);;
      mret (mkCarHeader roots)
  end.

(** [bs.Get(c)] followed by [RawData()]. *)
Definition bsGet (c : Cid) : ST World RawData :=
  logCall (CallBlockstoreGet c);;
  w ← get;
  match datastore w !! c with
  | Some raw => mret raw
  | None => fail (NotFound c)
  end.

(** *** Chain extractor *)

(** The loop [for !cur.Parents.Equals(block.UndefTipSet.Key()) { ... }] of
    [extractGenesisBlock]; [fuel] bounds the number of iterations. *)
Fixpoint walkBack (fuel : nat) (cur : Block) : ST World Block :=
  if negb (Equals (Parents cur) UndefTipSetKey) then
    match fuel with
    | O => outOfFuel
    | S fuel' =>
        c ← index (ToSlice (Parents cur)) 0;
        bsBlk ← bsGet c;
        cur' ← call (block_DecodeBlock env bsBlk);
        walkBack fuel' cur'
    end
  else mret cur.

Definition extractGenesisBlock (fuel : nat) (source : Stream) : ST World Block :=
  ch ← LoadCar source;
  r ← index (Roots ch) 0;
  bsBlk ← bsGet r;
  cur ← call (block_DecodeBlock env bsBlk);
  if negb (Equals (Parents cur) UndefTipSetKey) then
    gensisBlk ← walkBack fuel cur;
    mret gensisBlk
  else
    mret cur.

(** A linear chain in a block store, head first: every block but the last
    names, as the first CID of its [Parents], a key of the store whose bytes
    decode to the next block of the list; the last block has the undefined
    parents. *)
Fixpoint linearChain (bs : gmap Cid RawData) (b : Block) (ancestors : list Block) : Prop :=
  match ancestors with
  | [] => Parents b = UndefTipSetKey
  | p :: ancestors' =>
      (∃ c cs raw, ToSlice (Parents b) = c :: cs ∧ bs !! c = Some raw
                   ∧ block_DecodeBlock env raw = Ok p)
      ∧ linearChain bs p ancestors'
  end.

(** The first parent CID of every block of a list that has parents. *)
Definition firstParents (chain : list Block) : list Cid :=
  omap (λ b, head (ToSlice (Parents b))) chain.

(** The world after a successful load of [blocks] and the block store
    fetches [fetched], and nothing else. *)
Definition afterFetches (w : World) (blocks : list (Cid * RawData)) (fetched : list Cid) : World :=
  mkWorld (configFiles w) (repoConfig w) (repoPath w) (putBlocks blocks (datastore w))
          (calls w ++ CallLoadCar :: map CallBlockstoreGet fetched).

(** *** Archive source resolver *)

Definition httpGet (url : string) : ST World Stream :=
  logCall (CallHTTPGet url);; call (http_Get env url).
Definition osOpen (path : string) : ST World Stream :=
  logCall (CallOsOpen path);; call (os_Open env path).
Definition readFile (path : string) : ST World (list Byte.byte) :=
  logCall (CallReadFile path);; call (ioutil_ReadFile env path).

Definition errInvalidSource : error :=
  Errorf "invalid filepath or URL for genesis file: <nil>".
Definition errUnsupportedProtocol (scheme : string) : error :=
  Errorf ("unsupported protocol for genesis file: " +:+ scheme).

Definition openGenesisSource (sourceName : string) : ST World Stream :=
  sourceURL ← orElse (call (url_Parse env sourceName)) (λ _, fail errInvalidSource);
  if bool_decide (Scheme sourceURL = "http") || bool_decide (Scheme sourceURL = "https") then
    response ← httpGet sourceName;
    mret response
  else if negb (bool_decide (Scheme sourceURL = "")) then
    fail (errUnsupportedProtocol (Scheme sourceURL))
  else
    file ← osOpen sourceName;
    mret file.

Definition loadGenesis (fuel : nat) (sourceName : string) : ST World InitFunc :=
  if bool_decide (sourceName = "") then mret MakeGenesisFunc
  else
    source ← openGenesisSource sourceName;
    genesisBlk ← extractGenesisBlock fuel source;
    mret (GenesisFromArchive genesisBlk None).

(** *** Init option builder *)

Definition getNodeInitOpts (peerKeyFile walletKeyFile : string) : ST World (list InitOpt) :=
  let initOpts : list InitOpt := [] in
  initOpts ←
    (if negb (bool_decide (peerKeyFile = "")) then
       data ← readFile peerKeyFile;
       peerKey ← call (crypto_UnmarshalPrivateKey env data);
       mret (initOpts ++ [PeerKeyOpt peerKey])
     else mret initOpts);
  if negb (bool_decide (walletKeyFile = "")) then
    f ← osOpen walletKeyFile;
    wir ← call (json_Decode env f);
    wir ← deref wir;
    initOpts ←
      (if bool_decide (0 < length (KeyInfo_ wir)) then
         k ← index (KeyInfo_ wir) 0;
         mret (initOpts ++ [DefaultKeyOpt k])
       else mret initOpts);
    rest ← sliceFrom (KeyInfo_ wir) 1;
    mret (foldl (λ acc k, acc ++ [ImportKeyOpt k]) initOpts rest)
  else mret initOpts.

(** The directive list as the spec words it: the peer identity first, when
    a peer key was given; then the first wallet key as the default key and
    every later one as an import, in file order. *)
Definition expectedInitOpts (peerKey : option PrivKey) (walletKeys : list KeyInfo) : list InitOpt :=
  match peerKey with
  | Some k => [PeerKeyOpt k]
  | None => []
  end ++
  match walletKeys with
  | a :: rest => DefaultKeyOpt a :: map ImportKeyOpt rest
  | [] => []
  end.

(** No peer key file, or one that was read and parsed to a key. *)
Inductive peerKeyGiven : string → option PrivKey → Prop :=
| peer_absent : peerKeyGiven "" None
| peer_parsed path data k :
    path ≠ "" →
    ioutil_ReadFile env path = Ok data →
    crypto_UnmarshalPrivateKey env data = Ok k →
    peerKeyGiven path (Some k).

(** No wallet file, or one that was opened and decoded to at least one key
    record. *)
Inductive walletGiven : string → list KeyInfo → Prop :=
| wallet_absent : walletGiven "" []
| wallet_decoded path f a rest :
    path ≠ "" →
    os_Open env path = Ok f →
    json_Decode env f = Ok (Some (mkWallet (a :: rest))) →
    walletGiven path (a :: rest).

(** *** Config synthesizer *)

(** [cfg.Mining.MinerAddress, err = address.NewFromString(s)] and the return
    of a non-nil [err]: the field is assigned before [err] is looked at. *)
Definition assignMinerAddress (s : string) : ST Config unit :=
  let '(a, err) := address_NewFromString env s in
  modify (setMinerAddress a);;
  match err with
  | Some e => fail e
  | None => skip
  end.

Definition errPresealedWithoutMiner : error :=
  Errorf ("if --" +:+ OptionPresealedSectorDir +:+ " is provided, --" +:+ MinerActorAddress
          +:+ " or --" +:+ WithMiner +:+ " must also be provided").
Definition errUnknownNetwork (netName : string) : error :=
  Errorf ("unknown network name " +:+ netName).

Definition setConfigFromOptions (options : OptMap) : ST Config unit :=
  match asString (options !! OptionSectorDir) with
  | Some dir => modify (setRootDirPath dir)
  | None => skip
  end;;
  match asString (options !! WithMiner) with
  | Some m => assignMinerAddress m
  | None => skip
  end;;
  match options !! AutoSealIntervalSeconds with
  | Some (VUint autoSealIntervalSeconds) =>
      modify (setAutoSealIntervalSeconds autoSealIntervalSeconds)
  | Some _ => throw (InterfaceConversion "uint")
  | None => skip
  end;;
  match asString (options !! MinerActorAddress) with
  | Some ma => assignMinerAddress ma
  | None => skip
  end;;
  match asString (options !! OptionPresealedSectorDir) with
  | Some dir =>
      cfg ← get;
      if bool_decide (MinerAddress (Mining cfg) = Undef) then fail errPresealedWithoutMiner
      else modify (setPreSealedSectorsDirPath dir)
  | None => skip
  end;;
  let netName := default "" (asString (options !! Network)) in
  if bool_decide (netName = "interop") then modify (setNetwork (networks_InteropNet env))
  else if bool_decide (netName = "testnet") then modify (setNetwork (networks_TestNet env))
  else if negb (bool_decide (netName = "")) then fail (errUnknownNetwork netName)
  else skip.

(** A miner-address option that sets no miner address: it is absent, or
    its string does not parse, or it parses to the undefined address. *)
Definition setsNoMinerAddress (options : OptMap) (name : string) : Prop :=
  ∀ s a, asString (options !! name) = Some s →
         address_NewFromString env s = (a, None) → a = Undef.

(** The error of a miner-address option whose string does not parse. *)
Definition minerOptionError (options : OptMap) (e : error) : Prop :=
  ∃ name s a, name ∈ [WithMiner; MinerActorAddress]
              ∧ asString (options !! name) = Some s
              ∧ address_NewFromString env s = (a, Some e).

(** [d.Configure] reaches the config through [setWrapper], that is through
    [repo.Config()]: it works on the repo's own [Config] object. *)
Definition setDrandConfig (options : OptMap) : ST World unit :=
  match asString (options !! OptionDrandConfigAddr) with
  | None => mret ()
  | Some drandAddrStr =>
      w ← get;
      call (node_DefaultDrandIfaceFromConfig env (repoConfig w));;
      logCall (CallDrandConfigure drandAddrStr);;
      onRepoConfig (drand_Configure env drandAddrStr)
  end.

(** *** Repository *)

(** Modelled from the spec: package [repo] is not among the sources.
    [InitFSRepo] creates the repository with the config it is given as its
    config file. *)
Definition InitFSRepo (dir : string) (cfg : Config) : ST World unit :=
  logCall (CallInitFSRepo dir);;
  call (repo_InitFSRepo env dir);;
  modify (setConfigFile dir cfg).

(** Modelled from the spec: [OpenFSRepo] opens the repository of a directory;
    the handle's [Config] object is read from its config file. *)
Definition OpenFSRepo (dir : string) : ST World unit :=
  logCall (CallOpenFSRepo dir);;
  call (repo_OpenFSRepo env dir);;
  w ← get;
  match configFiles w !! dir with
  | Some cfg => modify (λ w, setRepoConfig cfg (setRepoPath dir w))
  | None => fail (Upstream "no repo")
  end.

(** Modelled from the spec: [rep.ReplaceConfig(cfg)] makes [cfg] the repo's
    config and persists it as the config file. *)
Definition ReplaceConfig (cfg : Config) : ST World unit :=
  logCall (CallReplaceConfig cfg);;
  modify (setRepoConfig cfg);;
  w ← get;
  call (repo_writeConfig env (repoPath w) cfg);;
  modify (setConfigFile (repoPath w) cfg).

Definition emit (s : string) : ST World unit :=
  logCall (CallEmit s);; call (re_Emit env s).

(** [node.Init] works on the repo it is handed; the log keeps the calls of
    [init.go] alone. *)
Definition keepLog {A} (m : ST World A) : ST World A :=
  λ w, let '(w', r) := m w in
       (mkWorld (configFiles w') (repoConfig w') (repoPath w') (datastore w') (calls w), r).
Definition nodeInit (gif : InitFunc) (initopts : list InitOpt) : ST World unit :=
  logCall (CallNodeInit gif initopts);;
  keepLog (node_Init env gif initopts).

(** *** Bootstrap entry point: [initCmd.Run] *)

(** [cfg := rep.Config()] is a pointer to the repo's [Config] object, so
    [setConfigFromOptions] and [setDrandConfig] change that object, and the
    [cfg] handed to [ReplaceConfig] is its content at that point. *)
Definition Run (fuel : nat) (options : OptMap) : ST World unit :=
  let repoDir := default "" (asString (options !! OptionRepoDir env)) in
  repoDir ← call (paths_GetRepoPath env repoDir);
  emit repoDir;;
  InitFSRepo repoDir (config_NewDefaultConfig env);;
  OpenFSRepo repoDir;;
  let genesisFileSource := default "" (asString (options !! GenesisFile)) in
  gif ← loadGenesis fuel genesisFileSource;
  let peerKeyFile := default "" (asString (options !! PeerKeyFile)) in
  let walletKeyFile := default "" (asString (options !! WalletKeyFile)) in
  initopts ← getNodeInitOpts peerKeyFile walletKeyFile;
  onRepoConfig (setConfigFromOptions options);;
  setDrandConfig options;;
  w ← get;
  ReplaceConfig (repoConfig w);;
  nodeInit gif initopts.

End Command.

(** ** Frames *)

(** [keeps R m]: whatever [m] does to the state, and however it ends, the
    state it leaves is related by [R] to the one it started from. *)
Definition keeps {S A} (R : relation S) (m : ST S A) : Prop := ∀ s, R s (m s).1.

(** The parts of the world a step of the run may not touch on its way to
    [ReplaceConfig]: the config files, the repo's [Config] object and path,
    and the [ReplaceConfig] calls made so far.  Writing blocks and making
    other calls is allowed. *)
Definition frame (w w' : World) : Prop :=
  configFiles w' = configFiles w ∧ repoConfig w' = repoConfig w
  ∧ repoPath w' = repoPath w ∧ replaceCalls (calls w') = replaceCalls (calls w).

Definition framed {A} (m : ST World A) : Prop := keeps frame m.

(** The sections of a config that only a network preset replaces. *)
Definition presetsOf (cfg : Config) : NetworkConf :=
  mkNetworkConf (Bootstrap cfg) (Drand cfg) (NetworkParams cfg).

Definition samePresets (cfg cfg' : Config) : Prop :=
  Bootstrap cfg' = Bootstrap cfg ∧ Drand cfg' = Drand cfg
  ∧ NetworkParams cfg' = NetworkParams cfg.

(** The config was not replaced between two worlds: no [ReplaceConfig] call
    was made, and the config files are the same, but for the default config
    that [InitFSRepo] stores. *)
Definition configUntouched (env : Env) (w w' : World) : Prop :=
  replaceCalls (calls w') = replaceCalls (calls w)
  ∧ (configFiles w' = configFiles w
     ∨ ∃ dir, configFiles w' = <[dir := config_NewDefaultConfig env]> (configFiles w)).

(** [wp m w Q]: running [m] from [w] ends in a world and an outcome that
    satisfy [Q]. *)
Definition wp {S A} (m : ST S A) (s : S) (Q : S → outcome A → Prop) : Prop :=
  Q (m s).1 (m s).2.

(** How a bootstrap run from [w0] can end: either it stopped with an error
    before [ReplaceConfig], with the config untouched, or config synthesis on
    the default config and the drand configuration after it both succeeded,
    and the one [ReplaceConfig] call of the run was handed the repo's config
    as they left it. *)
Definition runPost env (options : OptMap) (w0 w' : World) (r : outcome unit) : Prop :=
  (r ≠ Ok () ∧ configUntouched env w0 w')
  ∨ (∃ cfg1 w2 w3,
       setConfigFromOptions env options (config_NewDefaultConfig env) = (cfg1, Ok ())
       ∧ repoConfig w2 = cfg1
       ∧ setDrandConfig env options w2 = (w3, Ok ())
       ∧ replaceCalls (calls w') = replaceCalls (calls w0) ++ [repoConfig w3]).

(** ** Notions for the further properties *)

(** The links of a chain in a block store, head first: every block names,
    as the first CID of its [Parents], a key of the store whose bytes decode to
    the next block of the list.  Nothing is said of where the chain ends. *)
Fixpoint linked (env : Env) (bs : gmap Cid RawData) (b : Block) (ancestors : list Block) : Prop :=
  match ancestors with
  | [] => True
  | p :: ancestors' =>
      (∃ c cs raw, ToSlice (Parents b) = c :: cs ∧ bs !! c = Some raw
                   ∧ block_DecodeBlock env raw = Ok p)
      ∧ linked env bs p ancestors'
  end.

(** What [bs.Get(c)] and [block.DecodeBlock] of its bytes come to. *)
Definition fetchBlock (env : Env) (bs : gmap Cid RawData) (c : Cid) : outcome Block :=
  match bs !! c with
  | Some raw => block_DecodeBlock env raw
  | None => Err (NotFound c)
  end.

(** The block store is the one of before. *)
Definition sameStore (w w' : World) : Prop := datastore w' = datastore w.

(** The world is the one of before, but for calls added to the log. *)
Definition onlyLogged (w w' : World) (added : list Call) : Prop :=
  w' = mkWorld (configFiles w) (repoConfig w) (repoPath w) (datastore w) (calls w ++ added).

(** The calls that only the load of a genesis archive makes: the fetch of
    a URL, the load of the archive and the fetches of blocks. *)
Definition isGenesisCall (c : Call) : bool :=
  match c with
  | CallHTTPGet _ | CallLoadCar | CallBlockstoreGet _ => true
  | _ => false
  end.

Definition isReplaceConfig (c : Call) : bool :=
  match c with CallReplaceConfig _ => true | _ => false end.

Definition isNodeInit (c : Call) : bool :=
  match c with CallNodeInit _ _ => true | _ => false end.

(** The log grew by calls that all satisfy [P]. *)
Definition addsCalls (P : Call → Prop) (w w' : World) : Prop :=
  ∃ added, calls w' = calls w ++ added ∧ Forall P added.

(** How the log of a bootstrap run can have grown, with [P] a property of
    the calls before [ReplaceConfig]: the run stopped before [ReplaceConfig];
    or it stopped at [ReplaceConfig], whose write failed; or it went on to
    [node.Init], its last call. *)
Definition runLog (env : Env) (options : OptMap) (P : Call → Prop)
    (added : list Call) (r : outcome unit) : Prop :=
  (Forall P added ∧ r ≠ Ok ())
  ∨ (∃ pre cfg dir, added = pre ++ [CallReplaceConfig cfg] ∧ Forall P pre
                    ∧ repo_writeConfig env dir cfg = r ∧ r ≠ Ok ())
  ∨ (∃ pre cfg dir gif opts,
       added = pre ++ [CallReplaceConfig cfg; CallNodeInit gif opts] ∧ Forall P pre
       ∧ repo_writeConfig env dir cfg = Ok ()
       ∧ (default "" (asString (options !! GenesisFile)) = "" → gif = MakeGenesisFunc)).

(** ** A concrete environment

    A small world to run the command in: three blocks [B0 <- B1 <- B2],
    three archives, a few files and URLs. *)

Module Sample.

Definition B0 : Block := mkBlock UndefTipSetKey "genesis".
Definition B1 : Block := mkBlock (mkTipSetKey ["cid-B0"]) "first".
Definition B2 : Block := mkBlock (mkTipSetKey ["cid-B1"; "cid-X"]) "second".

Definition raw0 : RawData := [Byte.x00].
Definition raw1 : RawData := [Byte.x01].
Definition raw2 : RawData := [Byte.x02].

Definition decodeBlock (raw : RawData) : outcome Block :=
  match map Byte.to_nat raw with
  | [0] => Ok B0
  | [1] => Ok B1
  | [2] => Ok B2
  | _ => Err (Upstream "cbor: decode failed")
  end.

(** An archive holding the genesis block alone, one holding the chain with
    head [B2], and one that declares no root. *)
Definition carGenesis : Stream := [Byte.x0a].
Definition carChain : Stream := [Byte.x0b].
Definition carNoRoots : Stream := [Byte.x0c].

Definition decodeCar (s : Stream) : CarDecode :=
  match map Byte.to_nat s with
  | [10] => CarDecoded ["cid-B0"] [("cid-B0", raw0)]
  | [11] => CarDecoded ["cid-B2"; "cid-B1"]
              [("cid-B0", raw0); ("cid-B1", raw1); ("cid-B2", raw2)]
  | [12] => CarDecoded [] [("cid-B0", raw0)]
  | _ => CarMalformed []
  end.

Definition parseURL (s : string) : outcome URL :=
  if bool_decide (s = "https://example.org/genesis.car") then Ok (mkURL "https" "//example.org/genesis.car")
  else if bool_decide (s = "ftp://example.org/genesis.car") then Ok (mkURL "ftp" "//example.org/genesis.car")
  else if bool_decide (s = "gen%.car") then Err (Upstream "invalid URL escape")
  else Ok (mkURL "" s).

Definition openFile (path : string) : outcome Stream :=
  if bool_decide (path = "genesis.car") then Ok carGenesis
  else if bool_decide (path = "chain.car") then Ok carChain
  else if bool_decide (path = "gen%.car") then Ok carGenesis
  else if bool_decide (path = "wallet.json") then Ok [Byte.x20]
  else if bool_decide (path = "empty-wallet.json") then Ok [Byte.x21]
  else Err (Upstream "no such file or directory").

Definition keyA : KeyInfo := MkKeyInfo "A".
Definition keyB : KeyInfo := MkKeyInfo "B".
Definition keyC : KeyInfo := MkKeyInfo "C".

Definition decodeWallet (f : Stream) : outcome (option WalletSerializeResult) :=
  match map Byte.to_nat f with
  | [32] => Ok (Some (mkWallet [keyA; keyB; keyC]))
  | [33] => Ok (Some (mkWallet []))
  | _ => Err (Upstream "invalid character")
  end.

Definition parseAddress (s : string) : Address * option error :=
  if bool_decide (s = "") then (Undef, None)
  else if bool_decide (s = "t01000") || bool_decide (s = "t01001") then (mkAddress s, None)
  else (Undef, Some (Upstream "invalid address length")).

Definition defaultConfig : Config :=
  mkConfig (mkSectorBase "" "") (mkMining Undef 120)
           (BootstrapCfg "default") (DrandCfg "default") (NetworkParamsCfg "default") "".

Definition env : Env := {|
  OptionRepoDir := "repodir";
  paths_GetRepoPath := λ dir, Ok (if bool_decide (dir = "") then "~/.filecoin" else dir);
  re_Emit := λ _, Ok ();
  repo_InitFSRepo := λ _, Ok ();
  repo_OpenFSRepo := λ _, Ok ();
  repo_writeConfig := λ _ _, Ok ();
  config_NewDefaultConfig := defaultConfig;
  url_Parse := parseURL;
  http_Get := λ _, Ok carChain;
  os_Open := openFile;
  ioutil_ReadFile := λ path, if bool_decide (path = "peer.key") then Ok [Byte.x30]
                             else Err (Upstream "no such file or directory");
  crypto_UnmarshalPrivateKey := λ _, Ok (MkPrivKey "peer");
  json_Decode := decodeWallet;
  car_decode := decodeCar;
  block_DecodeBlock := decodeBlock;
  address_NewFromString := parseAddress;
  networks_InteropNet :=
    mkNetworkConf (BootstrapCfg "interop") (DrandCfg "interop") (NetworkParamsCfg "interop");
  networks_TestNet :=
    mkNetworkConf (BootstrapCfg "testnet") (DrandCfg "testnet") (NetworkParamsCfg "testnet");
  node_DefaultDrandIfaceFromConfig := λ _, Ok ();
  drand_Configure := λ _, skip;
  node_Init := λ _ _, skip |}.

Definition world : World := mkWorld ∅ defaultConfig "" ∅ [].

End Sample.

(** A second environment: the sample one, with an archive that lists the
    head of the chain as its only root, and an archive of two blocks that
    name each other as parent. *)
Module Looping.

Definition L1 : Block := mkBlock (mkTipSetKey ["cid-L2"]) "one".
Definition L2 : Block := mkBlock (mkTipSetKey ["cid-L1"]) "two".

Definition decodeBlock (raw : RawData) : outcome Block :=
  match map Byte.to_nat raw with
  | [3] => Ok L1
  | [4] => Ok L2
  | _ => Sample.decodeBlock raw
  end.

Definition carOneRoot : Stream := [Byte.x0d].
Definition carLoop : Stream := [Byte.x0e].
Definition carDangling : Stream := [Byte.x0f].

Definition decodeCar (s : Stream) : CarDecode :=
  match map Byte.to_nat s with
  | [13] => CarDecoded ["cid-B2"]
              [("cid-B0", Sample.raw0); ("cid-B1", Sample.raw1); ("cid-B2", Sample.raw2)]
  | [14] => CarDecoded ["cid-L1"] [("cid-L1", [Byte.x03]); ("cid-L2", [Byte.x04])]
  | [15] => CarDecoded ["cid-B2"] [("cid-B1", Sample.raw1); ("cid-B2", Sample.raw2)]
  | _ => Sample.decodeCar s
  end.

Definition env : Env := {|
  OptionRepoDir := OptionRepoDir Sample.env;
  paths_GetRepoPath := paths_GetRepoPath Sample.env;
  re_Emit := re_Emit Sample.env;
  repo_InitFSRepo := repo_InitFSRepo Sample.env;
  repo_OpenFSRepo := repo_OpenFSRepo Sample.env;
  repo_writeConfig := repo_writeConfig Sample.env;
  config_NewDefaultConfig := config_NewDefaultConfig Sample.env;
  url_Parse := url_Parse Sample.env;
  http_Get := http_Get Sample.env;
  os_Open := os_Open Sample.env;
  ioutil_ReadFile := ioutil_ReadFile Sample.env;
  crypto_UnmarshalPrivateKey := crypto_UnmarshalPrivateKey Sample.env;
  json_Decode := json_Decode Sample.env;
  car_decode := decodeCar;
  block_DecodeBlock := decodeBlock;
  address_NewFromString := address_NewFromString Sample.env;
  networks_InteropNet := networks_InteropNet Sample.env;
  networks_TestNet := networks_TestNet Sample.env;
  node_DefaultDrandIfaceFromConfig := node_DefaultDrandIfaceFromConfig Sample.env;
  drand_Configure := drand_Configure Sample.env;
  node_Init := node_Init Sample.env |}.

End Looping.

(** ** Properties *)

Ltac st_unfold :=
  unfold mbind, mret, ST_mbind, ST_mret, ST_bind, ST_ret, fail, throw, call,
    outOfFuel, modify, get, skip, orElse, deref in *.

(** *** Reasoning in the monad *)

Lemma wp_bind {S A B} (m : ST S A) (f : A → ST S B) s (Q : S → outcome B → Prop) :
  wp m s (λ s1 r, match r with
                  | Ok a => wp (f a) s1 Q
                  | Err e => Q s1 (Err e)
                  | Panic p => Q s1 (Panic p)
                  | OutOfFuel => Q s1 OutOfFuel
                  end) →
  wp (m ≫= f) s Q.
Proof.
  unfold wp, mbind, ST_mbind, ST_bind. destruct (m s) as [s1 [a| | |]]; auto.
Qed.

Lemma wp_keeps {S A} (R : relation S) (m : ST S A) s (Q : S → outcome A → Prop) :
  keeps R m → (∀ s1 r, R s s1 → Q s1 r) → wp m s Q.
Proof. intros Hm HQ. apply HQ, Hm. Qed.

Section Keeps.
Context {S : Type} (R : relation S) `{!PreOrder R}.

Lemma keeps_ret {A} (a : A) : keeps R (mret a).
Proof. intros s. reflexivity. Qed.

Lemma keeps_call {A} (r : outcome A) : keeps R (call r).
Proof. intros s. reflexivity. Qed.

Lemma keeps_fail {A} e : keeps R (@fail S A e).
Proof. intros s. reflexivity. Qed.

Lemma keeps_throw {A} p : keeps R (@throw S A p).
Proof. intros s. reflexivity. Qed.

Lemma keeps_outOfFuel {A} : keeps R (@outOfFuel S A).
Proof. intros s. reflexivity. Qed.

Lemma keeps_get : keeps R (@get S).
Proof. intros s. reflexivity. Qed.

Lemma keeps_modify (f : S → S) : (∀ s, R s (f s)) → keeps R (modify f).
Proof. intros Hf s. apply Hf. Qed.

Lemma keeps_bind {A B} (m : ST S A) (f : A → ST S B) :
  keeps R m → (∀ a, keeps R (f a)) → keeps R (m ≫= f).
Proof.
  intros Hm Hf s. specialize (Hm s). unfold mbind, ST_mbind, ST_bind.
  destruct (m s) as [s1 [a| | |]]; [|exact Hm..].
  etrans; [exact Hm|apply Hf].
Qed.

Lemma keeps_orElse {A} (m : ST S A) (h : error → ST S A) :
  keeps R m → (∀ e, keeps R (h e)) → keeps R (orElse m h).
Proof.
  intros Hm Hh s. specialize (Hm s). unfold orElse.
  destruct (m s) as [s1 [a|e| |]]; [exact Hm| |exact Hm..].
  etrans; [exact Hm|apply Hh].
Qed.

Lemma keeps_index {A} (l : list A) i : keeps R (index l i).
Proof. unfold index. destruct (l !! i); [apply keeps_ret|apply keeps_throw]. Qed.

Lemma keeps_sliceFrom {A} (l : list A) i : keeps R (sliceFrom l i).
Proof. unfold sliceFrom. case_decide; [apply keeps_ret|apply keeps_throw]. Qed.

Lemma keeps_deref {A} (p : option A) : keeps R (deref p).
Proof. destruct p; [apply keeps_ret|apply keeps_throw]. Qed.

End Keeps.

#[global] Instance frame_preorder : PreOrder frame.
Proof.
  split.
  - intros w. by repeat split.
  - intros w1 w2 w3 (?&?&?&?) (?&?&?&?). repeat split; congruence.
Qed.

#[global] Instance samePresets_preorder : PreOrder samePresets.
Proof.
  split.
  - intros c. by repeat split.
  - intros c1 c2 c3 (?&?&?) (?&?&?). repeat split; congruence.
Qed.

(** One step of a proof that a computation keeps a relation: through a
    bind, a leaf of the monad, or a case of the code. *)
Ltac keeps_apply lem := apply lem; [apply _|..].

Ltac keeps_step :=
  first
    [ keeps_apply keeps_bind; [|intros ?]
    | keeps_apply keeps_orElse; [|intros ?]
    | keeps_apply keeps_ret | keeps_apply keeps_call | keeps_apply keeps_fail
    | keeps_apply keeps_throw | keeps_apply keeps_outOfFuel | keeps_apply keeps_get
    | keeps_apply keeps_index | keeps_apply keeps_sliceFrom | keeps_apply keeps_deref
    | match goal with
      | |- keeps _ (if ?b then _ else _) => destruct b
      | |- keeps _ (match ?x with _ => _ end) => destruct x
      end ].

(** *** Running the sample *)

Example sample_extract_genesis :
  (extractGenesisBlock Sample.env 0 Sample.carGenesis Sample.world).2 = Ok Sample.B0.
Proof. reflexivity. Qed.

Example sample_extract_chain :
  (extractGenesisBlock Sample.env 2 Sample.carChain Sample.world).2 = Ok Sample.B0
  ∧ calls (extractGenesisBlock Sample.env 2 Sample.carChain Sample.world).1
    = [CallLoadCar; CallBlockstoreGet "cid-B2"; CallBlockstoreGet "cid-B1"; CallBlockstoreGet "cid-B0"].
Proof. split; reflexivity. Qed.

Example sample_extract_chain_short_of_fuel :
  (extractGenesisBlock Sample.env 1 Sample.carChain Sample.world).2 = OutOfFuel.
Proof. reflexivity. Qed.

(** *** Chain extractor *)

Lemma walkBack_genesis env fuel (b : Block) (w : World) :
  Parents b = UndefTipSetKey → walkBack env fuel b w = (w, Ok b).
Proof.
  intros Hb. destruct fuel; simpl; unfold Equals; rewrite Hb;
    rewrite bool_decide_eq_true_2 by done; reflexivity.
Qed.

Lemma linearChain_head_has_parents env bs b p ancestors :
  linearChain env bs b (p :: ancestors) → Parents b ≠ UndefTipSetKey.
Proof.
  intros [(c & cs & raw & Hc & _) _] Hundef. rewrite Hundef in Hc. discriminate.
Qed.

Lemma firstParents_cons b chain c cs :
  ToSlice (Parents b) = c :: cs → firstParents (b :: chain) = c :: firstParents chain.
Proof. intros Hc. unfold firstParents. simpl. rewrite Hc. reflexivity. Qed.

Lemma firstParents_genesis b :
  Parents b = UndefTipSetKey → firstParents [b] = [].
Proof. intros Hb. unfold firstParents. simpl. rewrite Hb. reflexivity. Qed.

Lemma firstParents_length env bs b ancestors :
  linearChain env bs b ancestors → length (firstParents (b :: ancestors)) = length ancestors.
Proof.
  revert b. induction ancestors as [|p ancestors IH]; intros b H.
  - simpl in H. by rewrite firstParents_genesis.
  - destruct H as [(c & cs & raw & Hc & _) Hrest].
    rewrite (firstParents_cons _ _ _ _ Hc). simpl. f_equal. apply (IH p Hrest).
Qed.

Lemma last_cons_default {A} (p : A) (l : list A) (d : A) :
  List.last (p :: l) d = List.last l p.
Proof.
  revert p d. induction l as [|x l IH]; intros p d; [done|].
  change (List.last (x :: l) d = List.last (x :: l) p). by rewrite !IH.
Qed.

(** One walk through a chain: with fuel for every hop, the loop fetches the
    first parent of each block in turn and stops at the last block. *)
Lemma walkBack_linearChain env fuel b ancestors (w : World) :
  linearChain env (datastore w) b ancestors →
  length ancestors ≤ fuel →
  walkBack env fuel b w =
    (mkWorld (configFiles w) (repoConfig w) (repoPath w) (datastore w)
             (calls w ++ map CallBlockstoreGet (firstParents (b :: ancestors))),
     Ok (List.last ancestors b)).
Proof.
  revert b ancestors w.
  induction fuel as [|fuel IH]; intros b ancestors w Hchain Hfuel;
    destruct ancestors as [|p ancestors]; try (simpl in Hfuel; lia).
  1,2: simpl in Hchain; rewrite walkBack_genesis by done;
       rewrite firstParents_genesis by done; simpl; rewrite app_nil_r; by destruct w.
  pose proof (linearChain_head_has_parents _ _ _ _ _ Hchain) as Hne.
  destruct Hchain as [(c & cs & raw & Hc & Hget & Hdec) Hrest].
  rewrite (firstParents_cons _ _ _ _ Hc), last_cons_default.
  cbn [walkBack]. unfold Equals. rewrite bool_decide_eq_false_2 by done.
  cbn [negb]. unfold index. rewrite Hc. cbn [lookup list_lookup].
  unfold bsGet, logCall, withCall. st_unfold. cbn [datastore calls]. rewrite Hget, Hdec.
  rewrite (IH p ancestors); [|exact Hrest|simpl in Hfuel; lia].
  cbn [configFiles repoConfig repoPath datastore calls map].
  rewrite <- app_assoc. reflexivity.
Qed.

(** The steps of [extractGenesisBlock] up to the decoded root block. *)
Lemma extractGenesisBlock_from_root env fuel source (w : World) r roots blocks raw cur :
  car_decode env source = CarDecoded (r :: roots) blocks →
  putBlocks blocks (datastore w) !! r = Some raw →
  block_DecodeBlock env raw = Ok cur →
  extractGenesisBlock env fuel source w =
    if negb (Equals (Parents cur) UndefTipSetKey)
    then walkBack env fuel cur (afterFetches w blocks [r])
    else (afterFetches w blocks [r], Ok cur).
Proof.
  intros Hcar Hget Hdec.
  unfold extractGenesisBlock, LoadCar, bsGet, index, logCall, withCall. rewrite Hcar.
  st_unfold. cbn. rewrite Hget, Hdec. unfold afterFetches.
  rewrite <- app_assoc. cbn.
  destruct (negb _); [|reflexivity].
  destruct (walkBack _ _ _ _) as [w' [a|e|p|]]; reflexivity.
Qed.

(** C1.  When the first declared root of an archive resolves to a block
    whose [Parents] is the undefined tipset key, [extractGenesisBlock]
    returns that block, whatever the fuel; the block store was asked for the
    root and for nothing else (zero parent hops). *)
Theorem extractGenesisBlock_root_is_genesis
    env fuel source (w : World) r roots blocks raw b :
  car_decode env source = CarDecoded (r :: roots) blocks →
  putBlocks blocks (datastore w) !! r = Some raw →
  block_DecodeBlock env raw = Ok b →
  Parents b = UndefTipSetKey →
  extractGenesisBlock env fuel source w = (afterFetches w blocks [r], Ok b).
Proof.
  intros Hcar Hget Hdec Hundef.
  rewrite (extractGenesisBlock_from_root _ _ _ _ _ _ _ _ _ Hcar Hget Hdec).
  unfold Equals. rewrite Hundef, bool_decide_eq_true_2 by done. reflexivity.
Qed.

Lemma extractGenesisBlock_root_is_genesis_witness :
  extractGenesisBlock Sample.env 0 Sample.carGenesis Sample.world
  = (afterFetches Sample.world [("cid-B0", Sample.raw0)] ["cid-B0"], Ok Sample.B0).
Proof.
  apply (extractGenesisBlock_root_is_genesis Sample.env 0 Sample.carGenesis Sample.world
           "cid-B0" [] [("cid-B0", Sample.raw0)] Sample.raw0 Sample.B0); reflexivity.
Defined.

(** C2.  For a linear chain of [N] blocks in the block store, given head
    first as [b :: ancestors] with the head [b] the block of the first root,
    [extractGenesisBlock] (with fuel for [N - 1] iterations of its loop)
    returns the last block of the chain, the one with undefined parents; after
    the root it fetched exactly the first parent CID of every block that has
    parents, in chain order, which are [N - 1] hops. *)
Theorem extractGenesisBlock_linear_chain
    env fuel source (w : World) r roots blocks raw b ancestors :
  car_decode env source = CarDecoded (r :: roots) blocks →
  putBlocks blocks (datastore w) !! r = Some raw →
  block_DecodeBlock env raw = Ok b →
  linearChain env (putBlocks blocks (datastore w)) b ancestors →
  length ancestors ≤ fuel →
  extractGenesisBlock env fuel source w
  = (afterFetches w blocks (r :: firstParents (b :: ancestors)), Ok (List.last ancestors b))
  ∧ Parents (List.last ancestors b) = UndefTipSetKey
  ∧ length (firstParents (b :: ancestors)) = length (b :: ancestors) - 1.
Proof.
  intros Hcar Hget Hdec Hchain Hfuel. split; [|split].
  - rewrite (extractGenesisBlock_from_root _ _ _ _ _ _ _ _ _ Hcar Hget Hdec).
    destruct ancestors as [|p ancestors].
    + simpl in Hchain. unfold Equals. rewrite Hchain, bool_decide_eq_true_2 by done.
      rewrite firstParents_genesis by (by rewrite Hchain). reflexivity.
    + pose proof (linearChain_head_has_parents _ _ _ _ _ Hchain) as Hne.
      unfold Equals. rewrite bool_decide_eq_false_2 by done. cbn [negb].
      rewrite (walkBack_linearChain env fuel b (p :: ancestors)) by done.
      unfold afterFetches. cbn [configFiles repoConfig repoPath datastore calls map].
      rewrite <- app_assoc. reflexivity.
  - clear Hget Hdec Hfuel. revert b Hchain.
    induction ancestors as [|p ancestors IH]; intros b Hchain; [exact Hchain|].
    rewrite last_cons_default. apply IH, Hchain.
  - rewrite (firstParents_length _ _ _ _ Hchain). simpl. lia.
Qed.

Lemma extractGenesisBlock_linear_chain_witness :
  extractGenesisBlock Sample.env 2 Sample.carChain Sample.world
  = (afterFetches Sample.world
       [("cid-B0", Sample.raw0); ("cid-B1", Sample.raw1); ("cid-B2", Sample.raw2)]
       ["cid-B2"; "cid-B1"; "cid-B0"],
     Ok Sample.B0).
Proof.
  refine (proj1 (extractGenesisBlock_linear_chain Sample.env 2 Sample.carChain Sample.world
           "cid-B2" ["cid-B1"] _ Sample.raw2 Sample.B2 [Sample.B1; Sample.B0]
           eq_refl eq_refl eq_refl _ _)).
  - split; [exists "cid-B1", ["cid-X"], Sample.raw1; repeat split; reflexivity|].
    split; [exists "cid-B0", [], Sample.raw0; repeat split; reflexivity|reflexivity].
  - simpl. lia.
Defined.

(** C3.  An archive that decodes to an empty list of roots makes
    [extractGenesisBlock] fail with [MissingRootBlock]: the loader's error is
    returned before any root is looked up, nothing is written to the block
    store, and no block is returned. *)
Theorem extractGenesisBlock_empty_roots env fuel source (w : World) blocks :
  car_decode env source = CarDecoded [] blocks →
  extractGenesisBlock env fuel source w = (withCall w CallLoadCar, Err MissingRootBlock)
  ∧ ∀ b, (extractGenesisBlock env fuel source w).2 ≠ Ok b.
Proof.
  intros Hcar.
  assert (extractGenesisBlock env fuel source w
          = (withCall w CallLoadCar, Err MissingRootBlock)) as ->.
  { unfold extractGenesisBlock, LoadCar, logCall, withCall. rewrite Hcar. reflexivity. }
  split; [reflexivity|]. intros b. discriminate.
Qed.

Lemma extractGenesisBlock_empty_roots_witness :
  (extractGenesisBlock Sample.env 5 Sample.carNoRoots Sample.world).2 = Err MissingRootBlock.
Proof.
  rewrite (proj1 (extractGenesisBlock_empty_roots Sample.env 5 Sample.carNoRoots Sample.world
                    [("cid-B0", Sample.raw0)] eq_refl)).
  reflexivity.
Defined.

(** A key with no CID is the undefined key, so a block whose parents are
    not undefined has a first parent: the index in the loop is in range. *)
Lemma ToSlice_nil_undef (k : TipSetKey) : ToSlice k = [] → k = UndefTipSetKey.
Proof. destruct k as [l]. simpl. by intros ->. Qed.

Lemma walkBack_never_panics env fuel cur (w : World) :
  (∀ raw p, block_DecodeBlock env raw ≠ Panic p) →
  ∀ p, (walkBack env fuel cur w).2 ≠ Panic p.
Proof.
  intros Hdec. revert cur w.
  induction fuel as [|fuel IH]; intros cur w p; cbn [walkBack]; unfold Equals;
    case_bool_decide as Hpar; cbn [negb]; try discriminate.
  unfold index, bsGet, logCall. st_unfold.
  destruct (ToSlice (Parents cur)) as [|c cs] eqn:Hc.
  { by destruct Hpar, (ToSlice_nil_undef _ Hc). }
  cbn. destruct (datastore w !! c) as [raw|]; [|discriminate].
  destruct (block_DecodeBlock env raw) as [cur'|e|p'|] eqn:Hraw; try discriminate.
  - specialize (IH cur' (withCall w (CallBlockstoreGet c)) p).
    by destruct (walkBack env fuel cur' _) as [w' [?|?|?|]].
  - by destruct (Hdec raw p').
Qed.

(** X2.  The indexings of [extractGenesisBlock] stay in range: its run never ends
    in a panic, whatever the archive and the block store hold (as long as
    decoding a block does not panic itself). *)
Theorem extractGenesisBlock_never_panics env fuel source (w : World) :
  (∀ raw p, block_DecodeBlock env raw ≠ Panic p) →
  ∀ p, (extractGenesisBlock env fuel source w).2 ≠ Panic p.
Proof.
  intros Hdec p.
  unfold extractGenesisBlock, LoadCar, bsGet, index, logCall. st_unfold.
  destruct (car_decode env source) as [written|[|r roots] blocks]; cbn; try discriminate.
  destruct (putBlocks blocks (datastore w) !! r) as [raw|]; [|discriminate].
  destruct (block_DecodeBlock env raw) as [cur|e|p'|] eqn:Hraw; try discriminate.
  - destruct (negb (Equals (Parents cur) UndefTipSetKey)); [|discriminate].
    match goal with |- context [walkBack env fuel cur ?w1] =>
      pose proof (walkBack_never_panics env fuel cur w1 Hdec p) as Hw;
      destruct (walkBack env fuel cur w1) as [w' [?|?|?|]] end; try discriminate.
    exact Hw.
  - by destruct (Hdec raw p').
Qed.

Lemma extractGenesisBlock_never_panics_witness :
  (extractGenesisBlock Sample.env 1 Sample.carChain Sample.world).2
  ≠ Panic (IndexOutOfRange 0 0)
  ∧ (extractGenesisBlock Sample.env 1 Sample.carChain Sample.world).2 = OutOfFuel.
Proof.
  split; [|reflexivity].
  apply (extractGenesisBlock_never_panics Sample.env 1 Sample.carChain Sample.world).
  intros raw p. unfold Sample.env, block_DecodeBlock, Sample.decodeBlock.
  destruct (map Byte.to_nat raw) as [|[|[|[|?]]] [|? ?]]; discriminate.
Defined.

Lemma walkBack_more_fuel env fuel fuel' cur (w : World) :
  fuel ≤ fuel' →
  (walkBack env fuel cur w).2 ≠ OutOfFuel →
  walkBack env fuel' cur w = walkBack env fuel cur w.
Proof.
  revert fuel' cur w.
  induction fuel as [|fuel IH]; intros fuel' cur w Hle;
    (destruct fuel' as [|fuel']; [try lia|]);
    cbn [walkBack]; destruct (negb (Equals (Parents cur) UndefTipSetKey)); try done.
  unfold index, bsGet, logCall. st_unfold.
  destruct (ToSlice (Parents cur) !! 0) as [c|]; [|done]. cbn.
  destruct (datastore w !! c) as [raw|]; [|done].
  destruct (block_DecodeBlock env raw) as [cur'| | |]; try done.
  intros Hres. rewrite (IH fuel' cur'); [done|lia|].
  by destruct (walkBack env fuel cur' _) as [w' [?|?|?|]].
Qed.

(** Fuel only bounds the model's loop: once [extractGenesisBlock] ends
    within some fuel, it ends the same way, in the same world, with any
    larger fuel. *)
Theorem extractGenesisBlock_more_fuel env fuel fuel' source (w : World) :
  fuel ≤ fuel' →
  (extractGenesisBlock env fuel source w).2 ≠ OutOfFuel →
  extractGenesisBlock env fuel' source w = extractGenesisBlock env fuel source w.
Proof.
  intros Hle.
  unfold extractGenesisBlock, LoadCar, bsGet, index, logCall. st_unfold.
  destruct (car_decode env source) as [written|[|r roots] blocks]; cbn; try done.
  destruct (putBlocks blocks (datastore w) !! r) as [raw|]; [|done].
  destruct (block_DecodeBlock env raw) as [cur| | |]; try done.
  destruct (negb (Equals (Parents cur) UndefTipSetKey)); [|done].
  intros Hres.
  match goal with |- context [walkBack env fuel cur ?w1] =>
    rewrite (walkBack_more_fuel env fuel fuel' cur w1 Hle); [done|];
    by destruct (walkBack env fuel cur w1) as [w' [?|?|?|]] end.
Qed.

Lemma extractGenesisBlock_more_fuel_witness :
  extractGenesisBlock Sample.env 7 Sample.carChain Sample.world
  = extractGenesisBlock Sample.env 2 Sample.carChain Sample.world.
Proof.
  apply (extractGenesisBlock_more_fuel Sample.env 2 7 Sample.carChain Sample.world).
  - lia.
  - discriminate.
Defined.

(** *** Config synthesizer *)

Example sample_config_both_miners :
  let options : OptMap :=
    {[ WithMiner := VString "t01000"; MinerActorAddress := VString "t01001" ]} in
  setConfigFromOptions Sample.env options Sample.defaultConfig
  = (setMinerAddress (mkAddress "t01001") Sample.defaultConfig, Ok ()).
Proof. reflexivity. Qed.

Lemma wellTyped_autoSeal (options : OptMap) :
  wellTyped options →
  options !! AutoSealIntervalSeconds = None
  ∨ ∃ n, options !! AutoSealIntervalSeconds = Some (VUint n).
Proof.
  intros H. unfold wellTyped, initCmdOptions in H.
  repeat (apply Forall_cons in H; destruct H as [? H]).
  match goal with
  | Hs : match options !! (AutoSealIntervalSeconds, UintOption).1 with _ => _ end |- _ =>
      cbn [fst snd] in Hs; destruct (options !! AutoSealIntervalSeconds) as [[?|n|?]|];
        try discriminate Hs; eauto
  end.
Qed.

Ltac config_steps :=
  unfold setConfigFromOptions, assignMinerAddress; st_unfold.

(** C10.  With none of the options that [setConfigFromOptions] reads in the
    option map, the call succeeds and the config it was given is returned as
    it was: sector root path, pre-sealed sector path, miner address, auto-seal
    interval, bootstrap list, drand configuration, network parameters and
    every other section. *)
Theorem setConfigFromOptions_no_option env (options : OptMap) (cfg : Config) :
  Forall (λ name, options !! name = None) configOptions →
  setConfigFromOptions env options cfg = (cfg, Ok ()).
Proof.
  unfold configOptions. intros H.
  repeat (apply Forall_cons in H; destruct H as [? H]).
  config_steps.
  repeat match goal with Hk : options !! _ = None |- _ => rewrite Hk; clear Hk end.
  reflexivity.
Qed.

Lemma setConfigFromOptions_no_option_witness :
  setConfigFromOptions Sample.env {[ GenesisFile := VString "genesis.car" ]} Sample.defaultConfig
  = (Sample.defaultConfig, Ok ()).
Proof.
  apply (setConfigFromOptions_no_option Sample.env
           {[ GenesisFile := VString "genesis.car" ]} Sample.defaultConfig).
  repeat constructor.
Defined.

(** One miner-address option that sets no address: the step goes through
    with the address still undefined, or fails with the option's parse error. *)
Lemma minerOption_step env (options : OptMap) (name : string) (cfg : Config) :
  name ∈ [WithMiner; MinerActorAddress] →
  setsNoMinerAddress env options name →
  MinerAddress (Mining cfg) = Undef →
  let step : ST Config unit :=
    match asString (options !! name) with
    | Some s => assignMinerAddress env s
    | None => skip
    end in
  (∃ cfg', step cfg = (cfg', Ok ()) ∧ MinerAddress (Mining cfg') = Undef)
  ∨ (∃ cfg' e, step cfg = (cfg', Err e) ∧ minerOptionError env options e).
Proof.
  intros Hname Hno Hundef. cbv zeta. unfold setsNoMinerAddress, minerOptionError in *.
  destruct (asString (options !! name)) as [s|] eqn:Hs.
  - unfold assignMinerAddress. st_unfold.
    destruct (address_NewFromString env s) as [a [e|]] eqn:Hparse.
    + right. exists (setMinerAddress a cfg), e. split; [reflexivity|].
      by exists name, s, a.
    + left. exists (setMinerAddress a cfg). split; [reflexivity|].
      cbn. by apply (Hno s a).
  - left. by exists cfg.
Qed.

(** C6.  With [presealed-sector-dir] present and no miner address set
    (the config starts with the undefined address and neither [with-miner]
    nor [miner-actor-address] yields an address), [setConfigFromOptions]
    fails, whatever the other options of the request are: with the error
    that names the two miner-address options, or, when the string of one of
    them does not parse, with that parse error. *)
Theorem setConfigFromOptions_presealed_needs_miner
    env (options : OptMap) (cfg : Config) dir :
  options !! OptionPresealedSectorDir = Some (VString dir) →
  MinerAddress (Mining cfg) = Undef →
  setsNoMinerAddress env options WithMiner →
  setsNoMinerAddress env options MinerActorAddress →
  wellTyped options →
  (setConfigFromOptions env options cfg).2 = Err errPresealedWithoutMiner
  ∨ ∃ e, minerOptionError env options e ∧ (setConfigFromOptions env options cfg).2 = Err e.
Proof.
  intros Hdir Hundef Hwith Hactor Htyped.
  unfold setConfigFromOptions, mbind, ST_mbind, ST_bind.
  set (cfg1 := (match asString (options !! OptionSectorDir) with
                | Some d => modify (setRootDirPath d)
                | None => skip
                end cfg)).
  assert (∃ c, cfg1 = (c, Ok ()) ∧ MinerAddress (Mining c) = Undef) as (c1 & -> & H1).
  { subst cfg1. destruct (asString (options !! OptionSectorDir)); eexists; by split. }
  destruct (minerOption_step env options WithMiner c1) as
    [(c2 & -> & H2) | (c2 & e & -> & He)]; [set_solver|done..| |by right; exists e].
  set (r3 := (match options !! AutoSealIntervalSeconds with
              | Some (VUint n) => modify (setAutoSealIntervalSeconds n)
              | None => skip
              | _ => throw (InterfaceConversion "uint")
              end c2)).
  assert (∃ c, r3 = (c, Ok ()) ∧ MinerAddress (Mining c) = Undef) as (c3 & -> & H3).
  { subst r3. destruct (wellTyped_autoSeal options Htyped) as [-> | [n ->]];
      eexists; by split. }
  destruct (minerOption_step env options MinerActorAddress c3) as
    [(c4 & -> & H4) | (c4 & e & -> & He)]; [set_solver|done..| |by right; exists e].
  left. rewrite Hdir. cbn [asString]. unfold get, fail.
  rewrite bool_decide_eq_true_2 by done. reflexivity.
Qed.

Lemma setConfigFromOptions_presealed_needs_miner_witness :
  let options : OptMap :=
    {[ OptionPresealedSectorDir := VString "/sealed"; Network := VString "interop";
       AutoSealIntervalSeconds := VUint 30 ]} in
  (setConfigFromOptions Sample.env options Sample.defaultConfig).2
    = Err errPresealedWithoutMiner
  ∨ ∃ e, minerOptionError Sample.env options e
         ∧ (setConfigFromOptions Sample.env options Sample.defaultConfig).2 = Err e.
Proof.
  apply (setConfigFromOptions_presealed_needs_miner Sample.env
           {[ OptionPresealedSectorDir := VString "/sealed"; Network := VString "interop";
              AutoSealIntervalSeconds := VUint 30 ]} Sample.defaultConfig "/sealed").
  - reflexivity.
  - reflexivity.
  - intros s a Hs. discriminate Hs.
  - intros s a Hs. discriminate Hs.
  - repeat constructor.
Defined.

Example sample_presealed_without_miner :
  (setConfigFromOptions Sample.env
     {[ OptionPresealedSectorDir := VString "/sealed"; WithMiner := VString "" ]}
     Sample.defaultConfig).2
  = Err errPresealedWithoutMiner.
Proof. reflexivity. Qed.

(** The config after the options up to [miner-actor-address] were applied
    holds the address that option parsed to; what is left to decide is the
    pre-sealed directory check and the network name. *)
Lemma setConfigFromOptions_both_miners env (options : OptMap) (cfg : Config) X Y ax ay :
  options !! MinerActorAddress = Some (VString X) →
  options !! WithMiner = Some (VString Y) →
  address_NewFromString env X = (ax, None) →
  address_NewFromString env Y = (ay, None) →
  wellTyped options →
  ∃ cfg1, MinerAddress (Mining cfg1) = ax ∧
    setConfigFromOptions env options cfg =
      let netName := default "" (asString (options !! Network)) in
      let net (cfg2 : Config) : Config * outcome unit :=
        if bool_decide (netName = "interop") then (setNetwork (networks_InteropNet env) cfg2, Ok ())
        else if bool_decide (netName = "testnet") then (setNetwork (networks_TestNet env) cfg2, Ok ())
        else if negb (bool_decide (netName = "")) then (cfg2, Err (errUnknownNetwork netName))
        else (cfg2, Ok ()) in
      match asString (options !! OptionPresealedSectorDir) with
      | Some dir =>
          if bool_decide (ax = Undef) then (cfg1, Err errPresealedWithoutMiner)
          else net (setPreSealedSectorsDirPath dir cfg1)
      | None => net cfg1
      end.
Proof.
  intros HX HY HpX HpY Htyped.
  config_steps. rewrite HX, HY. cbn [asString]. rewrite HpX, HpY.
  destruct (asString (options !! OptionSectorDir)) as [sd|];
  destruct (wellTyped_autoSeal options Htyped) as [-> | [n ->]];
  (eexists; split; [|
    destruct (asString (options !! OptionPresealedSectorDir)) as [dir|]; cbn;
    [destruct (bool_decide (ax = Undef))|];
    repeat (destruct (bool_decide (_ = _)); cbn [negb]); reflexivity]);
  reflexivity.
Qed.

(** C5, as stated, fails: with both miner-address options given and valid,
    an unknown network name still makes [setConfigFromOptions] fail. *)
Lemma setConfigFromOptions_both_miners_unknown_network :
  let options : OptMap :=
    {[ MinerActorAddress := VString "t01001"; WithMiner := VString "t01000";
       Network := VString "devnet" ]} in
  options !! MinerActorAddress = Some (VString "t01001")
  ∧ options !! WithMiner = Some (VString "t01000")
  ∧ address_NewFromString Sample.env "t01001" = (mkAddress "t01001", None)
  ∧ address_NewFromString Sample.env "t01000" = (mkAddress "t01000", None)
  ∧ (setConfigFromOptions Sample.env options Sample.defaultConfig).2
    = Err (errUnknownNetwork "devnet").
Proof. repeat split. Qed.

(** The network step of [setConfigFromOptions], by the name it is given. *)
Lemma network_step env (netName : string) (cfg2 : Config) :
  let r : Config * outcome unit :=
    if bool_decide (netName = "interop") then (setNetwork (networks_InteropNet env) cfg2, Ok ())
    else if bool_decide (netName = "testnet") then (setNetwork (networks_TestNet env) cfg2, Ok ())
    else if negb (bool_decide (netName = "")) then (cfg2, Err (errUnknownNetwork netName))
    else (cfg2, Ok ()) in
  Mining r.1 = Mining cfg2 ∧ (r.2 = Ok () ↔ netName ∈ [""; "interop"; "testnet"]).
Proof.
  cbv zeta. rewrite !elem_of_cons, elem_of_nil.
  destruct (decide (netName = "interop")) as [Hi|Hi].
  { rewrite bool_decide_eq_true_2 by done. cbn. tauto. }
  rewrite (bool_decide_eq_false_2 _ Hi).
  destruct (decide (netName = "testnet")) as [Ht|Ht].
  { rewrite bool_decide_eq_true_2 by done. cbn. tauto. }
  rewrite (bool_decide_eq_false_2 _ Ht).
  destruct (decide (netName = "")) as [He|He].
  { rewrite bool_decide_eq_true_2 by done. cbn. tauto. }
  rewrite (bool_decide_eq_false_2 _ He). cbn.
  split; [done|]. split; [discriminate|]. tauto.
Qed.

(** C5, amended.  With [miner-actor-address=X] and [with-miner=Y] both
    given and both parsed without error, [setConfigFromOptions] leaves the
    config's miner address equal to the address of [X]; the call succeeds
    exactly when the pre-sealed directory option is absent or that address is
    not the undefined one, and the network name is absent, empty, [interop]
    or [testnet]. *)
Theorem setConfigFromOptions_miner_actor_address_wins
    env (options : OptMap) (cfg : Config) X Y ax ay :
  options !! MinerActorAddress = Some (VString X) →
  options !! WithMiner = Some (VString Y) →
  address_NewFromString env X = (ax, None) →
  address_NewFromString env Y = (ay, None) →
  wellTyped options →
  MinerAddress (Mining (setConfigFromOptions env options cfg).1) = ax
  ∧ ((setConfigFromOptions env options cfg).2 = Ok ()
     ↔ (asString (options !! OptionPresealedSectorDir) = None ∨ ax ≠ Undef)
       ∧ default "" (asString (options !! Network)) ∈ [""; "interop"; "testnet"]).
Proof.
  intros HX HY HpX HpY Htyped.
  destruct (setConfigFromOptions_both_miners env options cfg X Y ax ay HX HY HpX HpY Htyped)
    as (cfg1 & Haddr & ->).
  cbv zeta.
  destruct (asString (options !! OptionPresealedSectorDir)) as [dir|].
  - case_bool_decide as Hundef.
    + cbn [fst snd]. split; [exact Haddr|]. split; [discriminate|].
      intros [[?|?] _]; done.
    + destruct (network_step env (default "" (asString (options !! Network)))
                  (setPreSealedSectorsDirPath dir cfg1)) as [Ha Hr].
      cbv zeta in Ha, Hr. rewrite Ha, Hr. split; [exact Haddr|].
      split; [intros Hnet; split; [right|]; assumption | intros [_ Hnet]; exact Hnet].
  - destruct (network_step env (default "" (asString (options !! Network))) cfg1) as [Ha Hr].
    cbv zeta in Ha, Hr. rewrite Ha, Hr. split; [exact Haddr|].
    split; [intros Hnet; split; [left; reflexivity|assumption] | intros [_ Hnet]; exact Hnet].
Qed.

Lemma setConfigFromOptions_miner_actor_address_wins_witness :
  let options : OptMap :=
    {[ MinerActorAddress := VString "t01001"; WithMiner := VString "t01000";
       OptionPresealedSectorDir := VString "/sealed" ]} in
  MinerAddress (Mining (setConfigFromOptions Sample.env options Sample.defaultConfig).1)
  = mkAddress "t01001".
Proof.
  refine (proj1 (setConfigFromOptions_miner_actor_address_wins Sample.env
                   {[ MinerActorAddress := VString "t01001"; WithMiner := VString "t01000";
                      OptionPresealedSectorDir := VString "/sealed" ]}
                   Sample.defaultConfig
                   "t01001" "t01000" (mkAddress "t01001") (mkAddress "t01000")
                   eq_refl eq_refl eq_refl eq_refl _)).
  repeat constructor.
Defined.

(** The options before the network name leave the preset sections alone. *)
Lemma keeps_assignMinerAddress env str : keeps samePresets (assignMinerAddress env str).
Proof.
  unfold assignMinerAddress. destruct (address_NewFromString env str) as [a [e|]];
    repeat (keeps_step || (apply keeps_modify; intros ?; by repeat split)).
Qed.

(** X1.  The network option decides the preset sections: a name other than the
    empty one, [interop] and [testnet] makes [setConfigFromOptions] fail; when
    the call succeeds, [interop] and [testnet] have installed their preset as
    the bootstrap list, drand configuration and network parameters, and
    without a name these three sections are the ones of before. *)
Theorem setConfigFromOptions_network env (options : OptMap) (cfg : Config) :
  let netName := default "" (asString (options !! Network)) in
  let cfg' := (setConfigFromOptions env options cfg).1 in
  let r := (setConfigFromOptions env options cfg).2 in
  (netName ∉ [""; "interop"; "testnet"] → r ≠ Ok ())
  ∧ (r = Ok () →
       (netName = "interop" → presetsOf cfg' = networks_InteropNet env)
       ∧ (netName = "testnet" → presetsOf cfg' = networks_TestNet env)
       ∧ (netName = "" → samePresets cfg cfg')).
Proof.
  cbv zeta. set (netName := default "" (asString (options !! Network))).
  change (wp (setConfigFromOptions env options) cfg (λ cfg' r,
    (netName ∉ [""; "interop"; "testnet"] → r ≠ Ok ())
    ∧ (r = Ok () →
         (netName = "interop" → presetsOf cfg' = networks_InteropNet env)
         ∧ (netName = "testnet" → presetsOf cfg' = networks_TestNet env)
         ∧ (netName = "" → samePresets cfg cfg')))).
  assert (Hstop : ∀ (c : Config) r, r ≠ Ok () →
    (netName ∉ [""; "interop"; "testnet"] → r ≠ Ok ())
    ∧ (r = Ok () →
         (netName = "interop" → presetsOf c = networks_InteropNet env)
         ∧ (netName = "testnet" → presetsOf c = networks_TestNet env)
         ∧ (netName = "" → samePresets cfg c))) by (intros c r Hr; by split).
  unfold setConfigFromOptions.
  apply wp_bind, (wp_keeps samePresets).
  { repeat (keeps_step || (apply keeps_modify; intros ?; by repeat split)). }
  intros c1 [[]|e|p|] H1; try (apply Hstop; discriminate).
  apply wp_bind, (wp_keeps samePresets).
  { destruct (asString (options !! WithMiner)); [apply keeps_assignMinerAddress|keeps_step]. }
  intros c2 [[]|e|p|] H2; try (apply Hstop; discriminate).
  apply wp_bind, (wp_keeps samePresets).
  { repeat (keeps_step || (apply keeps_modify; intros ?; by repeat split)). }
  intros c3 [[]|e|p|] H3; try (apply Hstop; discriminate).
  apply wp_bind, (wp_keeps samePresets).
  { destruct (asString (options !! MinerActorAddress));
      [apply keeps_assignMinerAddress|keeps_step]. }
  intros c4 [[]|e|p|] H4; try (apply Hstop; discriminate).
  apply wp_bind, (wp_keeps samePresets).
  { repeat (keeps_step || (apply keeps_modify; intros ?; by repeat split)). }
  intros c5 [[]|e|p|] H5; try (apply Hstop; discriminate).
  assert (H05 : samePresets cfg c5) by (do 4 (etrans; [eassumption|]); assumption).
  fold netName. unfold wp. rewrite !elem_of_cons, elem_of_nil.
  destruct (decide (netName = "interop")) as [Hi|Hi].
  { rewrite bool_decide_eq_true_2 by done. cbn. split; [tauto|]. intros _.
    rewrite Hi. repeat split; try discriminate. unfold presetsOf. cbn.
    by destruct (networks_InteropNet env). }
  rewrite (bool_decide_eq_false_2 _ Hi).
  destruct (decide (netName = "testnet")) as [Ht|Ht].
  { rewrite bool_decide_eq_true_2 by done. cbn. split; [tauto|]. intros _.
    rewrite Ht. repeat split; try discriminate. unfold presetsOf. cbn.
    by destruct (networks_TestNet env). }
  rewrite (bool_decide_eq_false_2 _ Ht).
  destruct (decide (netName = "")) as [He|He].
  { rewrite bool_decide_eq_true_2 by done. cbn. split; [tauto|]. intros _.
    repeat split; try done; apply H05. }
  rewrite (bool_decide_eq_false_2 _ He). cbn. split; [discriminate|discriminate].
Qed.

(** *** Archive source resolver *)

Example sample_open_https :
  openGenesisSource Sample.env "https://example.org/genesis.car" Sample.world
  = (withCall Sample.world (CallHTTPGet "https://example.org/genesis.car"), Ok Sample.carChain).
Proof. reflexivity. Qed.

(** C7, as stated, fails: a path that does not parse as a URL is not opened
    as a local file, although the file is there; the parse error is what
    comes back, and no stream is opened. *)
Lemma openGenesisSource_unparsable_path :
  "gen%.car" ≠ ""
  ∧ (∀ u, url_Parse Sample.env "gen%.car" ≠ Ok u)
  ∧ os_Open Sample.env "gen%.car" = Ok Sample.carGenesis
  ∧ openGenesisSource Sample.env "gen%.car" Sample.world
    = (Sample.world, Err errInvalidSource).
Proof. repeat split; discriminate. Qed.

(** C7, amended.  [openGenesisSource] dispatches on the parse of the source
    string: scheme [http] or [https] gives what the HTTP fetch of the string
    gives; any other non-empty scheme fails with the unsupported-protocol
    error and opens nothing; an empty scheme gives what opening the string as
    a local path gives, its error included; and a string that does not parse
    as a URL fails with the invalid-source error and opens nothing. *)
Theorem openGenesisSource_dispatch env (sourceName : string) (w : World) :
  (∀ u, url_Parse env sourceName = Ok u →
        Scheme u = "http" ∨ Scheme u = "https" →
        openGenesisSource env sourceName w
        = (withCall w (CallHTTPGet sourceName), http_Get env sourceName))
  ∧ (∀ u, url_Parse env sourceName = Ok u →
        Scheme u ≠ "http" → Scheme u ≠ "https" → Scheme u ≠ "" →
        openGenesisSource env sourceName w = (w, Err (errUnsupportedProtocol (Scheme u))))
  ∧ (∀ u, url_Parse env sourceName = Ok u →
        Scheme u = "" →
        openGenesisSource env sourceName w
        = (withCall w (CallOsOpen sourceName), os_Open env sourceName))
  ∧ (∀ e, url_Parse env sourceName = Err e →
        openGenesisSource env sourceName w = (w, Err errInvalidSource)).
Proof.
  unfold openGenesisSource, httpGet, osOpen, logCall. st_unfold.
  repeat split.
  - intros u -> [Hs|Hs]; rewrite Hs; cbn;
      destruct (http_Get env sourceName); reflexivity.
  - intros u -> H1 H2 H3.
    rewrite !bool_decide_eq_false_2 by done. reflexivity.
  - intros u -> Hs. rewrite Hs. cbn.
    destruct (os_Open env sourceName); reflexivity.
  - intros e ->. reflexivity.
Qed.

Lemma openGenesisSource_dispatch_witness :
  openGenesisSource Sample.env "ftp://example.org/genesis.car" Sample.world
  = (Sample.world, Err (errUnsupportedProtocol "ftp"))
  ∧ openGenesisSource Sample.env "missing.car" Sample.world
    = (withCall Sample.world (CallOsOpen "missing.car"),
       Err (Upstream "no such file or directory")).
Proof.
  pose proof (openGenesisSource_dispatch Sample.env "ftp://example.org/genesis.car"
                Sample.world) as (_ & Hftp & _).
  pose proof (openGenesisSource_dispatch Sample.env "missing.car" Sample.world)
    as (_ & _ & Hfile & _).
  split.
  - apply (Hftp (mkURL "ftp" "//example.org/genesis.car")); [reflexivity|discriminate..].
  - apply (Hfile (mkURL "" "missing.car")); reflexivity.
Defined.

(** *** Init option builder *)

Example sample_init_opts :
  (getNodeInitOpts Sample.env "peer.key" "wallet.json" Sample.world).2
  = Ok [PeerKeyOpt (MkPrivKey "peer"); DefaultKeyOpt Sample.keyA;
        ImportKeyOpt Sample.keyB; ImportKeyOpt Sample.keyC].
Proof. reflexivity. Qed.

Lemma import_loop (initOpts : list InitOpt) (rest : list KeyInfo) :
  foldl (λ acc k, acc ++ [ImportKeyOpt k]) initOpts rest = initOpts ++ map ImportKeyOpt rest.
Proof.
  revert initOpts. induction rest as [|k rest IH]; intros initOpts; simpl.
  - by rewrite app_nil_r.
  - rewrite IH, <- app_assoc. reflexivity.
Qed.

(** [getNodeInitOpts] after its peer-key part, by what the wallet file
    gives. *)
Lemma getNodeInitOpts_wallet_part env peerKeyFile walletKeyFile (w : World) pk :
  peerKeyGiven env peerKeyFile pk →
  (getNodeInitOpts env peerKeyFile walletKeyFile w).2 =
    if bool_decide (walletKeyFile = "") then Ok (expectedInitOpts pk [])
    else match os_Open env walletKeyFile with
         | Ok f =>
             match json_Decode env f with
             | Ok (Some wir) =>
                 match KeyInfo_ wir with
                 | a :: rest => Ok (expectedInitOpts pk (a :: rest))
                 | [] => Panic (SliceBoundsOutOfRange 1 0)
                 end
             | Ok None => Panic NilDereference
             | Err e => Err e
             | Panic p => Panic p
             | OutOfFuel => OutOfFuel
             end
         | Err e => Err e
         | Panic p => Panic p
         | OutOfFuel => OutOfFuel
         end.
Proof.
  intros Hpk. unfold getNodeInitOpts, readFile, osOpen, logCall, index, sliceFrom.
  destruct Hpk as [|path data k Hne Hread Hparse]; st_unfold;
    [rewrite (bool_decide_eq_true_2 ("" = "")) by reflexivity
    |rewrite (bool_decide_eq_false_2 _ Hne); cbn; rewrite Hread, Hparse];
    (destruct (bool_decide (walletKeyFile = ""));
       [unfold expectedInitOpts; by rewrite ?app_nil_r|]);
    cbn;
    (destruct (os_Open env walletKeyFile) as [f| | |]; try reflexivity);
    (destruct (json_Decode env f) as [[[keys]|]| | |]; try reflexivity);
    (destruct keys as [|a rest]; [reflexivity|]); cbn;
    rewrite bool_decide_eq_true_2 by lia;
    rewrite decide_True by lia; cbn;
    rewrite import_loop, drop_0; reflexivity.
Qed.

(** Without a parsed peer key, a non-empty peer key path makes
    [getNodeInitOpts] stop before it returns a list. *)
Lemma getNodeInitOpts_peer_unusable env peerKeyFile walletKeyFile (w : World) opts :
  peerKeyFile ≠ "" →
  (getNodeInitOpts env peerKeyFile walletKeyFile w).2 = Ok opts →
  ∃ data k, ioutil_ReadFile env peerKeyFile = Ok data
            ∧ crypto_UnmarshalPrivateKey env data = Ok k.
Proof.
  intros Hne. unfold getNodeInitOpts, readFile, logCall. st_unfold.
  rewrite (bool_decide_eq_false_2 _ Hne). cbn.
  destruct (ioutil_ReadFile env peerKeyFile) as [data| | |]; cbn; try discriminate.
  destruct (crypto_UnmarshalPrivateKey env data) as [k| | |] eqn:Hk; cbn; try discriminate.
  intros _. exists data, k. split; [reflexivity|exact Hk].
Qed.

(** C8.  The list [getNodeInitOpts] returns is the one the spec words: the
    peer-identity directive first, exactly when a peer key file was given and
    parsed; then, for a wallet file with keys [a :: rest], the default-key
    directive of [a] and the import directives of [rest], in file order (so
    [SetDefault(A), Import(B), Import(C)] for [A, B, C]); no wallet directive
    without a wallet file; and with neither path, the empty list and no
    error.  Every list the function returns arises this way. *)
Theorem getNodeInitOpts_order env peerKeyFile walletKeyFile (w : World) :
  (∀ pk keys,
      peerKeyGiven env peerKeyFile pk → walletGiven env walletKeyFile keys →
      (getNodeInitOpts env peerKeyFile walletKeyFile w).2 = Ok (expectedInitOpts pk keys))
  ∧ (∀ opts,
      (getNodeInitOpts env peerKeyFile walletKeyFile w).2 = Ok opts →
      ∃ pk keys, peerKeyGiven env peerKeyFile pk ∧ walletGiven env walletKeyFile keys
                 ∧ opts = expectedInitOpts pk keys)
  ∧ (∀ A B C,
      expectedInitOpts None [A; B; C] = [DefaultKeyOpt A; ImportKeyOpt B; ImportKeyOpt C]
      ∧ ∀ k, expectedInitOpts (Some k) [A; B; C]
             = [PeerKeyOpt k; DefaultKeyOpt A; ImportKeyOpt B; ImportKeyOpt C])
  ∧ (peerKeyFile = "" → walletKeyFile = "" →
      getNodeInitOpts env peerKeyFile walletKeyFile w = (w, Ok [])).
Proof.
  split; [|split; [|split]].
  - intros pk keys Hpk Hw.
    rewrite (getNodeInitOpts_wallet_part _ _ _ _ _ Hpk).
    destruct Hw as [|path f a rest Hne Hopen Hdec]; [reflexivity|].
    rewrite (bool_decide_eq_false_2 _ Hne), Hopen, Hdec. reflexivity.
  - intros opts Hres.
    assert (∃ pk, peerKeyGiven env peerKeyFile pk) as [pk Hpk].
    { destruct (decide (peerKeyFile = "")) as [->|Hne]; [eexists; constructor|].
      destruct (getNodeInitOpts_peer_unusable _ _ _ _ _ Hne Hres) as (data & k & Hr & Hk).
      exists (Some k). by econstructor. }
    rewrite (getNodeInitOpts_wallet_part _ _ _ _ _ Hpk) in Hres.
    exists pk. case_bool_decide as Hwallet.
    + exists []. subst walletKeyFile. split; [done|]. split; [constructor|]. congruence.
    + destruct (os_Open env walletKeyFile) as [f| | |] eqn:Hopen; try discriminate.
      destruct (json_Decode env f) as [[[keys]|]| | |] eqn:Hdec; try discriminate.
      destruct keys as [|a rest]; [discriminate|]. cbn in Hres.
      exists (a :: rest). split; [done|]. split; [by econstructor|]. congruence.
  - intros A B C. split; reflexivity.
  - intros -> ->. reflexivity.
Qed.

Lemma getNodeInitOpts_order_witness :
  (getNodeInitOpts Sample.env "peer.key" "wallet.json" Sample.world).2
  = Ok [PeerKeyOpt (MkPrivKey "peer"); DefaultKeyOpt Sample.keyA;
        ImportKeyOpt Sample.keyB; ImportKeyOpt Sample.keyC].
Proof.
  apply (proj1 (getNodeInitOpts_order Sample.env "peer.key" "wallet.json" Sample.world)
           (Some (MkPrivKey "peer")) [Sample.keyA; Sample.keyB; Sample.keyC]).
  - by apply (peer_parsed Sample.env "peer.key" [Byte.x30]).
  - by apply (wallet_decoded Sample.env "wallet.json" [Byte.x20]).
Defined.

(** C9 fails on the code: a wallet file that decodes to an empty key list
    passes the guard on [KeyInfo[0]] and then panics in the slice expression
    [KeyInfo[1:]], whose lower bound is past the length; this in every
    environment and world, with or without a peer key. *)
Theorem getNodeInitOpts_empty_wallet env peerKeyFile walletKeyFile (w : World) pk f :
  peerKeyGiven env peerKeyFile pk →
  walletKeyFile ≠ "" →
  os_Open env walletKeyFile = Ok f →
  json_Decode env f = Ok (Some (mkWallet [])) →
  (getNodeInitOpts env peerKeyFile walletKeyFile w).2 = Panic (SliceBoundsOutOfRange 1 0).
Proof.
  intros Hpk Hne Hopen Hdec.
  rewrite (getNodeInitOpts_wallet_part _ _ _ _ _ Hpk).
  rewrite (bool_decide_eq_false_2 _ Hne), Hopen, Hdec. reflexivity.
Qed.

Lemma getNodeInitOpts_empty_wallet_panics :
  (getNodeInitOpts Sample.env "" "empty-wallet.json" Sample.world).2
  = Panic (SliceBoundsOutOfRange 1 0).
Proof.
  apply (getNodeInitOpts_empty_wallet Sample.env "" "empty-wallet.json" Sample.world
           None [Byte.x21]).
  - constructor.
  - discriminate.
  - reflexivity.
  - reflexivity.
Defined.

(** *** Bootstrap entry point *)

Example sample_run_ok :
  let options : OptMap :=
    {[ GenesisFile := VString "chain.car"; WithMiner := VString "t01000";
       Network := VString "testnet" ]} in
  let w' := (Run Sample.env 5 options Sample.world).1 in
  (Run Sample.env 5 options Sample.world).2 = Ok ()
  ∧ configFiles w' !! "~/.filecoin"
    = Some (setNetwork (networks_TestNet Sample.env)
              (setMinerAddress (mkAddress "t01000") Sample.defaultConfig))
  ∧ replaceCalls (calls w')
    = [setNetwork (networks_TestNet Sample.env)
         (setMinerAddress (mkAddress "t01000") Sample.defaultConfig)].
Proof. repeat split. Qed.

Example sample_run_bad_network :
  let options : OptMap :=
    {[ GenesisFile := VString "chain.car"; WithMiner := VString "t01000";
       Network := VString "devnet" ]} in
  let w' := (Run Sample.env 5 options Sample.world).1 in
  (Run Sample.env 5 options Sample.world).2 = Err (errUnknownNetwork "devnet")
  ∧ configFiles w' !! "~/.filecoin" = Some Sample.defaultConfig
  ∧ MinerAddress (Mining (repoConfig w')) = mkAddress "t01000"
  ∧ replaceCalls (calls w') = [].
Proof. repeat split. Qed.

Lemma replaceCalls_snoc l c :
  replaceCalls (l ++ [c]) =
    replaceCalls l ++ match c with CallReplaceConfig cfg => [cfg] | _ => [] end.
Proof. unfold replaceCalls. rewrite omap_app. by destruct c. Qed.

Lemma framed_logCall c :
  (∀ cfg, c ≠ CallReplaceConfig cfg) → framed (logCall c).
Proof.
  intros Hc w. repeat split. cbn. rewrite replaceCalls_snoc.
  destruct c; try apply app_nil_r. by destruct (Hc cfg).
Qed.

Lemma framed_setDatastore (f : World → gmap Cid RawData) :
  framed (modify (λ w, setDatastore (f w) w)).
Proof. intros w. by repeat split. Qed.

Ltac framed_step :=
  unfold framed;
  first
    [ apply framed_setDatastore
    | apply framed_logCall; discriminate
    | keeps_step ].

Lemma framed_bsGet c : framed (bsGet c).
Proof. unfold bsGet. repeat framed_step. Qed.

Lemma framed_LoadCar env source : framed (LoadCar env source).
Proof. unfold LoadCar. repeat framed_step. Qed.

Lemma framed_walkBack env fuel cur : framed (walkBack env fuel cur).
Proof.
  revert cur. induction fuel as [|fuel IH]; intros cur; cbn [walkBack].
  - repeat framed_step.
  - repeat (apply framed_bsGet || apply IH || framed_step).
Qed.

Lemma framed_extractGenesisBlock env fuel source :
  framed (extractGenesisBlock env fuel source).
Proof.
  unfold extractGenesisBlock.
  repeat (apply framed_LoadCar || apply framed_bsGet || apply framed_walkBack || framed_step).
Qed.

Lemma framed_openGenesisSource env sourceName : framed (openGenesisSource env sourceName).
Proof. unfold openGenesisSource, httpGet, osOpen. repeat framed_step. Qed.

Lemma framed_loadGenesis env fuel sourceName : framed (loadGenesis env fuel sourceName).
Proof.
  unfold loadGenesis.
  repeat (apply framed_openGenesisSource || apply framed_extractGenesisBlock || framed_step).
Qed.

Lemma framed_getNodeInitOpts env peerKeyFile walletKeyFile :
  framed (getNodeInitOpts env peerKeyFile walletKeyFile).
Proof. unfold getNodeInitOpts, readFile, osOpen. repeat framed_step. Qed.

Lemma setDrandConfig_keeps env (options : OptMap) (w : World) :
  configFiles (setDrandConfig env options w).1 = configFiles w
  ∧ repoPath (setDrandConfig env options w).1 = repoPath w
  ∧ replaceCalls (calls (setDrandConfig env options w).1) = replaceCalls (calls w).
Proof.
  unfold setDrandConfig, onRepoConfig, logCall. st_unfold.
  destruct (asString (options !! OptionDrandConfigAddr)) as [addr|]; [|done].
  destruct (node_DefaultDrandIfaceFromConfig env (repoConfig w)) as [[]| | |]; try done.
  cbn. destruct (drand_Configure env addr (repoConfig w)) as [cfg r]. cbn.
  rewrite replaceCalls_snoc, app_nil_r. done.
Qed.

Lemma wp_framed {A} (m : ST World A) w (Q : World → outcome A → Prop) :
  framed m → (∀ w1 r, frame w w1 → Q w1 r) → wp m w Q.
Proof. apply wp_keeps. Qed.

Lemma Run_tail env (options : OptMap) gif initopts (w0 w7 : World) :
  repoConfig w7 = config_NewDefaultConfig env →
  configUntouched env w0 w7 →
  wp (onRepoConfig (setConfigFromOptions env options);;
      setDrandConfig env options;;
      w ← get;
      ReplaceConfig env (repoConfig w);;
      nodeInit env gif initopts) w7 (runPost env options w0).
Proof.
  intros Hcfg [Hcalls Hfiles].
  apply wp_bind. unfold wp at 1, onRepoConfig. rewrite Hcfg.
  destruct (setConfigFromOptions env options (config_NewDefaultConfig env)) as [cfg1 r1] eqn:Hset.
  cbn [fst snd].
  destruct r1 as [[]|e|p|]; try (left; split; [discriminate|split; assumption]).
  apply wp_bind. unfold wp at 1.
  pose proof (setDrandConfig_keeps env options (setRepoConfig cfg1 w7)) as (Hf & Hp & Hc).
  destruct (setDrandConfig env options (setRepoConfig cfg1 w7)) as [w9 r9] eqn:Hdrand.
  cbn [fst snd setRepoConfig configFiles repoPath calls] in Hf, Hp, Hc.
  rewrite Hcalls in Hc. cbn [fst snd].
  destruct r9 as [[]|e|p|];
    try (left; split; [discriminate|split; [exact Hc|rewrite Hf; exact Hfiles]]).
  right. exists cfg1, (setRepoConfig cfg1 w7), w9. repeat split; try assumption.
  unfold wp, ReplaceConfig, nodeInit, keepLog, logCall. st_unfold. cbn.
  destruct (repo_writeConfig env (repoPath w9) (repoConfig w9)) as [[]| | |]; cbn;
    rewrite ?replaceCalls_snoc, ?Hc; try reflexivity.
  destruct (node_Init env gif initopts _) as [w' r']. cbn.
  rewrite !replaceCalls_snoc, app_nil_r, Hc. reflexivity.
Qed.

Lemma wp_emit env str (w : World) (Q : World → outcome unit → Prop) :
  Q (withCall w (CallEmit str)) (re_Emit env str) → wp (emit env str) w Q.
Proof.
  unfold wp, emit, logCall. st_unfold. cbn. by destruct (re_Emit env str).
Qed.

Lemma wp_InitFSRepo env dir cfg (w : World) (Q : World → outcome unit → Prop) :
  (∀ r, r ≠ Ok () → Q (withCall w (CallInitFSRepo dir)) r) →
  Q (setConfigFile dir cfg (withCall w (CallInitFSRepo dir))) (Ok ()) →
  wp (InitFSRepo env dir cfg) w Q.
Proof.
  intros Hfail Hok. unfold wp, InitFSRepo, logCall. st_unfold. cbn.
  destruct (repo_InitFSRepo env dir) as [[]| | |]; cbn; [exact Hok|apply Hfail; discriminate..].
Qed.

Lemma wp_OpenFSRepo env dir cfg (w : World) (Q : World → outcome unit → Prop) :
  configFiles w !! dir = Some cfg →
  (∀ r, r ≠ Ok () → Q (withCall w (CallOpenFSRepo dir)) r) →
  Q (setRepoConfig cfg (setRepoPath dir (withCall w (CallOpenFSRepo dir)))) (Ok ()) →
  wp (OpenFSRepo env dir) w Q.
Proof.
  intros Hfile Hfail Hok. unfold wp, OpenFSRepo, logCall. st_unfold. cbn.
  destruct (repo_OpenFSRepo env dir) as [[]| | |]; cbn;
    [rewrite Hfile; exact Hok|apply Hfail; discriminate..].
Qed.

Lemma Run_cases env fuel (options : OptMap) (w : World) :
  wp (Run env fuel options) w (runPost env options w).
Proof.
  assert (Hstop : ∀ (w1 : World) (r : outcome unit),
            r ≠ Ok () → configUntouched env w w1 → runPost env options w w1 r).
  { intros w1 r Hr Hu. left. by split. }
  unfold Run.
  apply wp_bind. unfold wp at 1, call. cbn [fst snd].
  destruct (paths_GetRepoPath env _) as [dir|e|p|];
    try (apply Hstop; [discriminate|split; [reflexivity|by left]]).
  apply wp_bind, wp_emit.
  destruct (re_Emit env dir) as [[]|e|p|];
    try (apply Hstop; [discriminate|]; split;
         [cbn; by rewrite replaceCalls_snoc, app_nil_r|by left]).
  apply wp_bind, wp_InitFSRepo.
  { intros [[]|e|p|] Hr; [done|apply Hstop; [discriminate|]..];
      (split; [|by left]); cbn; by rewrite !replaceCalls_snoc, !app_nil_r. }
  apply wp_bind, (wp_OpenFSRepo _ _ (config_NewDefaultConfig env)).
  { cbn. apply lookup_insert_eq. }
  { intros [[]|e|p|] Hr; [done|apply Hstop; [discriminate|]..];
      (split; [|right; by exists dir]); cbn; by rewrite !replaceCalls_snoc, !app_nil_r. }
  set (w5 := setRepoConfig _ _).
  assert (Hw5 : repoConfig w5 = config_NewDefaultConfig env ∧ configUntouched env w w5).
  { split; [reflexivity|]. split; [|right; by exists dir].
    cbn. by rewrite !replaceCalls_snoc, !app_nil_r. }
  clearbody w5.
  assert (Hframe : ∀ w6, frame w5 w6 →
            repoConfig w6 = config_NewDefaultConfig env ∧ configUntouched env w w6).
  { intros w6 (Hf & Hc & _ & Hr). destruct Hw5 as [Hcfg [Hcalls Hfiles]].
    split; [congruence|]. split; [congruence|]. by rewrite Hf. }
  apply wp_bind, wp_framed; [apply framed_loadGenesis|].
  intros w6 r6 H56.
  destruct r6 as [gif|e|p|]; try (apply Hstop; [discriminate|apply Hframe, H56]).
  apply wp_bind, wp_framed; [apply framed_getNodeInitOpts|].
  intros w7 r7 H67. assert (H57 : frame w5 w7) by (etrans; eassumption).
  destruct r7 as [initopts|e|p|]; try (apply Hstop; [discriminate|apply Hframe, H57]).
  destruct (Hframe w7 H57) as [Hcfg Hun].
  exact (Run_tail env options gif initopts w w7 Hcfg Hun).
Qed.

(** C4.  In a bootstrap run, [ReplaceConfig] is called only after
    [setConfigFromOptions] (on the default config the repo was created with)
    and [setDrandConfig] have both returned success, and it is handed the
    repo's config as they left it.  When [setConfigFromOptions] does not
    succeed on the option map, the run does not succeed, [ReplaceConfig] is
    never called, and the persisted config files are the ones of before, but
    for the default config stored when the repository was created. *)
Theorem Run_replaces_config_after_validation env fuel (options : OptMap) (w : World) :
  (replaceCalls (calls (Run env fuel options w).1) ≠ replaceCalls (calls w) →
     ∃ cfg1 w2 w3,
       setConfigFromOptions env options (config_NewDefaultConfig env) = (cfg1, Ok ())
       ∧ repoConfig w2 = cfg1
       ∧ setDrandConfig env options w2 = (w3, Ok ())
       ∧ replaceCalls (calls (Run env fuel options w).1)
         = replaceCalls (calls w) ++ [repoConfig w3])
  ∧ ((setConfigFromOptions env options (config_NewDefaultConfig env)).2 ≠ Ok () →
     (Run env fuel options w).2 ≠ Ok ()
     ∧ configUntouched env w (Run env fuel options w).1).
Proof.
  pose proof (Run_cases env fuel options w) as H. unfold wp, runPost in H.
  destruct (Run env fuel options w) as [w' r]. cbn [fst snd] in *.
  destruct H as [[Hr Hun] | (cfg1 & w2 & w3 & Hset & Hcfg & Hdrand & Hcalls)].
  - split; [|by intros _]. intros Hne. by destruct Hun as [Hc _].
  - split; [intros _; by exists cfg1, w2, w3|].
    rewrite Hset. intros Hne. by destruct Hne.
Qed.

Lemma Run_replaces_config_after_validation_witness :
  let options : OptMap :=
    {[ GenesisFile := VString "chain.car"; WithMiner := VString "t01000";
       Network := VString "devnet" ]} in
  (Run Sample.env 5 options Sample.world).2 = Err (errUnknownNetwork "devnet")
  ∧ configUntouched Sample.env Sample.world (Run Sample.env 5 options Sample.world).1.
Proof.
  split; [reflexivity|].
  apply (proj2 (Run_replaces_config_after_validation Sample.env 5
                  {[ GenesisFile := VString "chain.car"; WithMiner := VString "t01000";
                     Network := VString "devnet" ]} Sample.world)).
  discriminate.
Defined.

(** ** Further properties *)

(** *** Chain extractor *)

Example looping_extract :
  (extractGenesisBlock Looping.env 50 Looping.carLoop Sample.world).2 = OutOfFuel
  ∧ (extractGenesisBlock Looping.env 50 Looping.carDangling Sample.world).2
    = Err (NotFound "cid-B0").
Proof. split; reflexivity. Qed.

Lemma walkBack_returns_parentless env fuel cur (w w' : World) b :
  walkBack env fuel cur w = (w', Ok b) → Parents b = UndefTipSetKey.
Proof.
  revert cur w. induction fuel as [|fuel IH]; intros cur w; cbn [walkBack]; unfold Equals;
    case_bool_decide as Hpar; cbn [negb]; try (intros [= _ <-]; exact Hpar); try discriminate.
  unfold index, bsGet, logCall. st_unfold.
  destruct (ToSlice (Parents cur) !! 0) as [c|]; [|discriminate]. cbn.
  destruct (datastore w !! c) as [raw|]; [|discriminate].
  destruct (block_DecodeBlock env raw) as [cur'| | |]; try discriminate.
  apply IH.
Qed.

Lemma walkBack_failing_hop env fuel b ancestors (w : World) c cs e :
  linked env (datastore w) b ancestors →
  ToSlice (Parents (List.last ancestors b)) = c :: cs →
  fetchBlock env (datastore w) c = Err e →
  length ancestors < fuel →
  walkBack env fuel b w =
    (mkWorld (configFiles w) (repoConfig w) (repoPath w) (datastore w)
             (calls w ++ map CallBlockstoreGet (firstParents (b :: ancestors))),
     Err e).
Proof.
  revert b ancestors w.
  induction fuel as [|fuel IH]; intros b ancestors w Hlinks Htip Hfetch Hfuel; [lia|].
  destruct ancestors as [|p ancestors].
  - cbn [List.last] in Htip.
    assert (Hne : Parents b ≠ UndefTipSetKey) by (intros Hu; rewrite Hu in Htip; discriminate).
    rewrite (firstParents_cons _ _ _ _ Htip).
    cbn [walkBack]. unfold Equals. rewrite bool_decide_eq_false_2 by done.
    cbn [negb]. unfold index. rewrite Htip. cbn [lookup list_lookup].
    unfold bsGet, logCall, withCall, fetchBlock in *. st_unfold. cbn [datastore calls].
    destruct (datastore w !! c) as [raw|]; [rewrite Hfetch|injection Hfetch as <-]; reflexivity.
  - destruct Hlinks as [(c0 & cs0 & raw & Hc & Hget & Hdec) Hrest].
    assert (Hne : Parents b ≠ UndefTipSetKey) by (intros Hu; rewrite Hu in Hc; discriminate).
    rewrite last_cons_default in Htip.
    rewrite (firstParents_cons _ _ _ _ Hc).
    cbn [walkBack]. unfold Equals. rewrite bool_decide_eq_false_2 by done.
    cbn [negb]. unfold index. rewrite Hc. cbn [lookup list_lookup].
    unfold bsGet, logCall, withCall. st_unfold. cbn [datastore calls]. rewrite Hget, Hdec.
    rewrite (IH p ancestors); [|exact Hrest|exact Htip|exact Hfetch|simpl in Hfuel; lia].
    cbn [configFiles repoConfig repoPath datastore calls map].
    rewrite <- app_assoc. reflexivity.
Qed.

(** X4.  A dangling or undecodable parent is a failure, not a silent stop:
    when the walk from the first root follows the links of a chain
    [b :: ancestors] and the first parent of the chain's last block is missing
    from the block store (error [NotFound]) or does not decode (the decoder's
    error), [extractGenesisBlock] returns that error, after fetching the root
    and the first parent of every block of the chain; no block is returned. *)
Theorem extractGenesisBlock_failing_hop
    env fuel source (w : World) r roots blocks raw b ancestors c cs e :
  car_decode env source = CarDecoded (r :: roots) blocks →
  putBlocks blocks (datastore w) !! r = Some raw →
  block_DecodeBlock env raw = Ok b →
  linked env (putBlocks blocks (datastore w)) b ancestors →
  ToSlice (Parents (List.last ancestors b)) = c :: cs →
  fetchBlock env (putBlocks blocks (datastore w)) c = Err e →
  length ancestors < fuel →
  extractGenesisBlock env fuel source w
  = (afterFetches w blocks (r :: firstParents (b :: ancestors)), Err e).
Proof.
  intros Hcar Hget Hdec Hlinks Htip Hfetch Hfuel.
  rewrite (extractGenesisBlock_from_root _ _ _ _ _ _ _ _ _ Hcar Hget Hdec).
  assert (Hne : Parents b ≠ UndefTipSetKey).
  { destruct ancestors as [|p ancestors].
    - cbn in Htip. intros Hu. rewrite Hu in Htip. discriminate.
    - destruct Hlinks as [(c0 & cs0 & raw0 & Hc & _) _]. intros Hu. rewrite Hu in Hc.
      discriminate. }
  unfold Equals. rewrite bool_decide_eq_false_2 by done. cbn [negb].
  rewrite (walkBack_failing_hop env fuel b ancestors _ c cs e); try assumption.
  unfold afterFetches. cbn [configFiles repoConfig repoPath datastore calls map].
  rewrite <- app_assoc. reflexivity.
Qed.

Lemma extractGenesisBlock_failing_hop_witness :
  extractGenesisBlock Looping.env 9 Looping.carDangling Sample.world
  = (afterFetches Sample.world [("cid-B1", Sample.raw1); ("cid-B2", Sample.raw2)]
       ["cid-B2"; "cid-B1"; "cid-B0"],
     Err (NotFound "cid-B0")).
Proof.
  apply (extractGenesisBlock_failing_hop Looping.env 9 Looping.carDangling Sample.world
           "cid-B2" [] [("cid-B1", Sample.raw1); ("cid-B2", Sample.raw2)]
           Sample.raw2 Sample.B2 [Sample.B1] "cid-B0" []).
  - reflexivity.
  - reflexivity.
  - reflexivity.
  - split; [|exact I]. exists "cid-B1", ["cid-X"], Sample.raw1. repeat split; reflexivity.
  - reflexivity.
  - reflexivity.
  - simpl. lia.
Defined.

(** X5.  Only the first declared root is used: two archives that hold the
    same blocks and agree on their first root give the same result, whatever
    other roots they declare. *)
Theorem extractGenesisBlock_first_root_only
    env fuel source1 source2 (w : World) r roots1 roots2 blocks :
  car_decode env source1 = CarDecoded (r :: roots1) blocks →
  car_decode env source2 = CarDecoded (r :: roots2) blocks →
  extractGenesisBlock env fuel source1 w = extractGenesisBlock env fuel source2 w.
Proof.
  intros H1 H2. unfold extractGenesisBlock, LoadCar. rewrite H1, H2. reflexivity.
Qed.

Lemma extractGenesisBlock_first_root_only_witness :
  extractGenesisBlock Looping.env 5 Sample.carChain Sample.world
  = extractGenesisBlock Looping.env 5 Looping.carOneRoot Sample.world.
Proof.
  apply (extractGenesisBlock_first_root_only Looping.env 5 Sample.carChain Looping.carOneRoot
           Sample.world "cid-B2" ["cid-B1"] []
           [("cid-B0", Sample.raw0); ("cid-B1", Sample.raw1); ("cid-B2", Sample.raw2)]);
    reflexivity.
Defined.

Lemma walkBack_on_cycle env (P : Block → Prop) fuel cur (w : World) :
  (∀ b, P b → ∃ c cs raw b', ToSlice (Parents b) = c :: cs
                              ∧ datastore w !! c = Some raw
                              ∧ block_DecodeBlock env raw = Ok b' ∧ P b') →
  P cur →
  (walkBack env fuel cur w).2 = OutOfFuel.
Proof.
  intros Hclosed. revert cur w Hclosed.
  induction fuel as [|fuel IH]; intros cur w Hclosed Hcur;
    destruct (Hclosed cur Hcur) as (c & cs & raw & b' & Hc & Hget & Hdec & Hb');
    assert (Hne : Parents cur ≠ UndefTipSetKey)
      by (intros Hu; rewrite Hu in Hc; discriminate);
    cbn [walkBack]; unfold Equals; rewrite bool_decide_eq_false_2 by done; cbn [negb];
    [reflexivity|].
  unfold index. rewrite Hc. cbn [lookup list_lookup].
  unfold bsGet, logCall, withCall. st_unfold. cbn [datastore calls]. rewrite Hget, Hdec.
  specialize (IH b' (mkWorld (configFiles w) (repoConfig w) (repoPath w) (datastore w)
                       (calls w ++ [CallBlockstoreGet c])) Hclosed Hb').
  by destruct (walkBack env fuel b' _) as [w' [?|?|?|]].
Qed.

(** X6.  The walk has no bound of its own and no check for repetition: when
    the root block lies in a set of blocks of the store that all have parents
    and whose first parents lead back into the set (a chain that never reaches
    a parentless block), [extractGenesisBlock] returns within no number of
    loop iterations. *)
Theorem extractGenesisBlock_never_ends_without_genesis
    env source (w : World) r roots blocks raw cur (P : Block → Prop) :
  car_decode env source = CarDecoded (r :: roots) blocks →
  putBlocks blocks (datastore w) !! r = Some raw →
  block_DecodeBlock env raw = Ok cur →
  P cur →
  (∀ b, P b → ∃ c cs raw' b', ToSlice (Parents b) = c :: cs
                               ∧ putBlocks blocks (datastore w) !! c = Some raw'
                               ∧ block_DecodeBlock env raw' = Ok b' ∧ P b') →
  ∀ fuel, (extractGenesisBlock env fuel source w).2 = OutOfFuel.
Proof.
  intros Hcar Hget Hdec Hcur Hclosed fuel.
  rewrite (extractGenesisBlock_from_root _ _ _ _ _ _ _ _ _ Hcar Hget Hdec).
  destruct (Hclosed cur Hcur) as (c & cs & raw' & b' & Hc & _).
  assert (Hne : Parents cur ≠ UndefTipSetKey) by (intros Hu; rewrite Hu in Hc; discriminate).
  unfold Equals. rewrite bool_decide_eq_false_2 by done. cbn [negb].
  apply (walkBack_on_cycle env P); [exact Hclosed|exact Hcur].
Qed.

Lemma extractGenesisBlock_never_ends_without_genesis_witness :
  (extractGenesisBlock Looping.env 1000 Looping.carLoop Sample.world).2 = OutOfFuel.
Proof.
  apply (extractGenesisBlock_never_ends_without_genesis Looping.env Looping.carLoop Sample.world
           "cid-L1" [] [("cid-L1", [Byte.x03]); ("cid-L2", [Byte.x04])] [Byte.x03] Looping.L1
           (λ b, b = Looping.L1 ∨ b = Looping.L2)).
  - reflexivity.
  - reflexivity.
  - reflexivity.
  - by left.
  - intros b [->| ->].
    + exists "cid-L2", [], [Byte.x04], Looping.L2. repeat split; by right.
    + exists "cid-L1", [], [Byte.x03], Looping.L1. repeat split; by left.
Defined.

#[global] Instance sameStore_preorder : PreOrder sameStore.
Proof.
  split.
  - intros w. reflexivity.
  - intros w1 w2 w3 H12 H23. unfold sameStore in *. congruence.
Qed.

Lemma sameStore_logCall c : keeps sameStore (logCall c).
Proof. intros w. reflexivity. Qed.

Lemma sameStore_walkBack env fuel cur : keeps sameStore (walkBack env fuel cur).
Proof.
  revert cur. induction fuel as [|fuel IH]; intros cur; cbn [walkBack]; unfold bsGet;
    repeat (apply sameStore_logCall || apply IH || keeps_step).
Qed.

Lemma sameStore_after_bind {A B} (m : ST World A) (f : A → ST World B) (w : World) :
  (∀ a, keeps sameStore (f a)) → datastore ((m ≫= f) w).1 = datastore (m w).1.
Proof.
  intros Hf. unfold mbind, ST_mbind, ST_bind.
  destruct (m w) as [w1 [a| | |]]; cbn [fst snd]; [apply (Hf a w1)|reflexivity..].
Qed.

Lemma extractGenesisBlock_datastore env fuel source (w : World) :
  datastore (extractGenesisBlock env fuel source w).1
  = match car_decode env source with
    | CarMalformed written => putBlocks written (datastore w)
    | CarDecoded [] _ => datastore w
    | CarDecoded (_ :: _) blocks => putBlocks blocks (datastore w)
    end.
Proof.
  assert (Hload : datastore (LoadCar env source w).1
                  = match car_decode env source with
                    | CarMalformed written => putBlocks written (datastore w)
                    | CarDecoded [] _ => datastore w
                    | CarDecoded (_ :: _) blocks => putBlocks blocks (datastore w)
                    end).
  { unfold LoadCar, logCall. st_unfold.
    by destruct (car_decode env source) as [written|[|r roots] blocks]. }
  rewrite <- Hload. unfold extractGenesisBlock.
  apply sameStore_after_bind. intros ch. unfold bsGet.
  repeat (apply sameStore_logCall || apply sameStore_walkBack || keeps_step).
Qed.

(** X7.  [extractGenesisBlock] writes to the block store through the load of
    the archive and in no other way, and it undoes nothing: however the call
    ends (a block, an error of the walk, no end), the store holds the blocks
    the load wrote on top of what it held before, and the config files, the
    repo's config and its path are untouched. *)
Theorem extractGenesisBlock_store env fuel source (w : World) :
  datastore (extractGenesisBlock env fuel source w).1
  = match car_decode env source with
    | CarMalformed written => putBlocks written (datastore w)
    | CarDecoded [] _ => datastore w
    | CarDecoded (_ :: _) blocks => putBlocks blocks (datastore w)
    end
  ∧ configFiles (extractGenesisBlock env fuel source w).1 = configFiles w
  ∧ repoConfig (extractGenesisBlock env fuel source w).1 = repoConfig w
  ∧ repoPath (extractGenesisBlock env fuel source w).1 = repoPath w.
Proof.
  split; [apply extractGenesisBlock_datastore|].
  destruct (framed_extractGenesisBlock env fuel source w) as (Hf & Hc & Hp & _).
  by repeat split.
Qed.
Lemma extractGenesisBlock_ok_parentless env fuel source (w w' : World) b :
  extractGenesisBlock env fuel source w = (w', Ok b) → Parents b = UndefTipSetKey.
Proof.
  unfold extractGenesisBlock, LoadCar, bsGet, index, logCall. st_unfold.
  destruct (car_decode env source) as [written|[|r roots] blocks]; cbn; try discriminate.
  destruct (putBlocks blocks (datastore w) !! r) as [raw|]; [|discriminate].
  destruct (block_DecodeBlock env raw) as [cur| | |]; try discriminate.
  unfold Equals. case_bool_decide as Hpar; cbn [negb].
  - by intros [= _ <-].
  - match goal with |- context [walkBack env fuel cur ?w1] =>
      destruct (walkBack env fuel cur w1) as [w2 [b'| | |]] eqn:Hwalk end; try discriminate.
    intros [= _ <-]. exact (walkBack_returns_parentless _ _ _ _ _ _ Hwalk).
Qed.

(** A block the walk returns is the block it started from or the decoding of
    bytes of the store. *)
Lemma walkBack_returns_stored env fuel cur (w w' : World) b :
  walkBack env fuel cur w = (w', Ok b) →
  b = cur ∨ ∃ c raw, datastore w !! c = Some raw ∧ block_DecodeBlock env raw = Ok b.
Proof.
  revert cur w. induction fuel as [|fuel IH]; intros cur w; cbn [walkBack];
    destruct (negb (Equals (Parents cur) UndefTipSetKey));
    try (intros [= _ <-]; by left); try discriminate.
  unfold index, bsGet, logCall. st_unfold.
  destruct (ToSlice (Parents cur) !! 0) as [c|]; [|discriminate]. cbn.
  destruct (datastore w !! c) as [raw|] eqn:Hget; [|discriminate].
  destruct (block_DecodeBlock env raw) as [cur'| | |] eqn:Hdec; try discriminate.
  intros Hwalk. destruct (IH _ _ Hwalk) as [->|Hstored]; right; [by exists c, raw|exact Hstored].
Qed.

(** X3.  Whatever the archive and the block store hold, a block that
    [extractGenesisBlock] returns has the undefined tipset key as its
    [Parents], and it is the decoding of bytes that the block store holds
    after the call: the function never hands back a block that has parents,
    nor one that is not in the store. *)
Theorem extractGenesisBlock_returns_parentless env fuel source (w w' : World) b :
  extractGenesisBlock env fuel source w = (w', Ok b) →
  Parents b = UndefTipSetKey
  ∧ ∃ c raw, datastore w' !! c = Some raw ∧ block_DecodeBlock env raw = Ok b.
Proof.
  intros Hres. split; [exact (extractGenesisBlock_ok_parentless _ _ _ _ _ _ Hres)|].
  pose proof (extractGenesisBlock_datastore env fuel source w) as Hstore.
  rewrite Hres in Hstore. cbn [fst] in Hstore. revert Hres.
  unfold extractGenesisBlock, LoadCar, bsGet, index, logCall. st_unfold.
  destruct (car_decode env source) as [written|[|r roots] blocks]; cbn; try discriminate.
  destruct (putBlocks blocks (datastore w) !! r) as [raw|] eqn:Hget; [|discriminate].
  destruct (block_DecodeBlock env raw) as [cur| | |] eqn:Hdec; try discriminate.
  rewrite Hstore.
  destruct (negb (Equals (Parents cur) UndefTipSetKey)).
  - match goal with |- context [walkBack env fuel cur ?w1] =>
      destruct (walkBack env fuel cur w1) as [w2 [b'| | |]] eqn:Hwalk end; try discriminate.
    intros [= _ <-].
    destruct (walkBack_returns_stored _ _ _ _ _ _ Hwalk) as [->|Hstored];
      [by exists r, raw|exact Hstored].
  - intros [= _ <-]. by exists r, raw.
Qed.

Lemma extractGenesisBlock_returns_parentless_witness :
  Parents Sample.B0 = UndefTipSetKey.
Proof.
  apply (extractGenesisBlock_returns_parentless Sample.env 2 Sample.carChain Sample.world
           (afterFetches Sample.world
              [("cid-B0", Sample.raw0); ("cid-B1", Sample.raw1); ("cid-B2", Sample.raw2)]
              ["cid-B2"; "cid-B1"; "cid-B0"]) Sample.B0).
  reflexivity.
Defined.


(** *** Genesis loader *)

Lemma sameStore_openGenesisSource env sourceName :
  keeps sameStore (openGenesisSource env sourceName).
Proof.
  unfold openGenesisSource, httpGet, osOpen.
  repeat (apply sameStore_logCall || keeps_step).
Qed.

(** X8.  [loadGenesis] by its source name.  With the empty name it returns
    the local generator and touches nothing: no source is opened, no block is
    written.  With any other name, a source that cannot be opened ends the
    call with that error before anything is loaded (the block store is as
    before), and an [InitFunc] that is returned holds a block with undefined
    parents together with a nil error. *)
Theorem loadGenesis_result env fuel sourceName (w : World) :
  (sourceName = "" → loadGenesis env fuel sourceName w = (w, Ok MakeGenesisFunc))
  ∧ (∀ w1 e, sourceName ≠ "" →
       openGenesisSource env sourceName w = (w1, Err e) →
       loadGenesis env fuel sourceName w = (w1, Err e) ∧ datastore w1 = datastore w)
  ∧ (∀ w' gif, sourceName ≠ "" →
       loadGenesis env fuel sourceName w = (w', Ok gif) →
       ∃ b, gif = GenesisFromArchive b None ∧ Parents b = UndefTipSetKey).
Proof.
  split; [|split].
  - intros ->. reflexivity.
  - intros w1 e Hne Hopen. unfold loadGenesis. rewrite (bool_decide_eq_false_2 _ Hne).
    unfold mbind, ST_mbind, ST_bind. rewrite Hopen. split; [reflexivity|].
    pose proof (sameStore_openGenesisSource env sourceName w) as Hs.
    by rewrite Hopen in Hs.
  - intros w' gif Hne. unfold loadGenesis. rewrite (bool_decide_eq_false_2 _ Hne).
    unfold mbind, ST_mbind, ST_bind.
    destruct (openGenesisSource env sourceName w) as [w1 [source| | |]]; try discriminate.
    destruct (extractGenesisBlock env fuel source w1) as [w2 [b| | |]] eqn:Hex;
      try discriminate.
    intros [= _ <-]. exists b. split; [reflexivity|].
    exact (extractGenesisBlock_ok_parentless _ _ _ _ _ _ Hex).
Qed.

Lemma loadGenesis_result_witness :
  (loadGenesis Sample.env 3 "chain.car" Sample.world).2
  = Ok (GenesisFromArchive Sample.B0 None)
  ∧ ∃ b, GenesisFromArchive Sample.B0 None = GenesisFromArchive b None
         ∧ Parents b = UndefTipSetKey.
Proof.
  split; [reflexivity|].
  apply (proj2 (proj2 (loadGenesis_result Sample.env 3 "chain.car" Sample.world))
           (loadGenesis Sample.env 3 "chain.car" Sample.world).1).
  - discriminate.
  - reflexivity.
Defined.

(** *** Config synthesizer *)

(** The cases of an option map for [setConfigFromOptions]: each option
    present or not, each address string parsed or not. *)
Ltac config_cases options env :=
  destruct (asString (options !! OptionSectorDir)) as [sd|];
  (destruct (asString (options !! WithMiner)) as [wm|] eqn:Hwith;
     [destruct (address_NewFromString env wm) as [a1 [e1|]] eqn:Hwm|]);
  destruct (options !! AutoSealIntervalSeconds) as [[?|n|?]|] eqn:Hseal;
  (destruct (asString (options !! MinerActorAddress)) as [ma|] eqn:Hactor;
     [destruct (address_NewFromString env ma) as [a2 [e2|]] eqn:Hma|]);
  destruct (asString (options !! OptionPresealedSectorDir)) as [pd|];
  cbn.

(** X9.  What a successful [setConfigFromOptions] leaves in the config: the
    sector root path and the pre-sealed sector path are the values of their
    options when given and the old ones otherwise; the auto-seal interval
    likewise; the miner address is the one [miner-actor-address] parsed to, or
    else the one [with-miner] parsed to, or else the old one; every other
    section but the three preset ones is as before. *)
Theorem setConfigFromOptions_success env (options : OptMap) (cfg cfg' : Config) :
  setConfigFromOptions env options cfg = (cfg', Ok ()) →
  RootDirPath (SectorBase cfg')
  = default (RootDirPath (SectorBase cfg)) (asString (options !! OptionSectorDir))
  ∧ PreSealedSectorsDirPath (SectorBase cfg')
    = default (PreSealedSectorsDirPath (SectorBase cfg))
        (asString (options !! OptionPresealedSectorDir))
  ∧ AutoSealIntervalSeconds_ (Mining cfg')
    = match options !! AutoSealIntervalSeconds with
      | Some (VUint n) => n
      | _ => AutoSealIntervalSeconds_ (Mining cfg)
      end
  ∧ MinerAddress (Mining cfg')
    = match asString (options !! MinerActorAddress), asString (options !! WithMiner) with
      | Some ma, _ => (address_NewFromString env ma).1
      | None, Some m => (address_NewFromString env m).1
      | None, None => MinerAddress (Mining cfg)
      end
  ∧ otherSections cfg' = otherSections cfg.
Proof.
  config_steps.
  set (netName := default "" (asString (options !! Network))).
  config_cases options env; rewrite ?Hwm, ?Hma; cbn; try discriminate;
    repeat (case_bool_decide; cbn [negb]); try discriminate;
    intros [= <-]; done.
Qed.

Lemma setConfigFromOptions_success_witness :
  let options : OptMap :=
    {[ OptionSectorDir := VString "/sectors"; WithMiner := VString "t01000";
       AutoSealIntervalSeconds := VUint 30; OptionPresealedSectorDir := VString "/sealed" ]} in
  let cfg' := (setConfigFromOptions Sample.env options Sample.defaultConfig).1 in
  RootDirPath (SectorBase cfg') = "/sectors"
  ∧ PreSealedSectorsDirPath (SectorBase cfg') = "/sealed"
  ∧ AutoSealIntervalSeconds_ (Mining cfg') = 30%N
  ∧ MinerAddress (Mining cfg') = mkAddress "t01000"
  ∧ otherSections cfg' = "".
Proof.
  exact (setConfigFromOptions_success Sample.env
           {[ OptionSectorDir := VString "/sectors"; WithMiner := VString "t01000";
              AutoSealIntervalSeconds := VUint 30;
              OptionPresealedSectorDir := VString "/sealed" ]} Sample.defaultConfig
           (setConfigFromOptions Sample.env
              {[ OptionSectorDir := VString "/sectors"; WithMiner := VString "t01000";
                 AutoSealIntervalSeconds := VUint 30;
                 OptionPresealedSectorDir := VString "/sealed" ]} Sample.defaultConfig).1
           eq_refl).
Defined.


(** X11.  [setConfigFromOptions] is idempotent where it succeeds: applying
    the same options to the config it produced succeeds again and changes
    nothing. *)
Theorem setConfigFromOptions_idempotent env (options : OptMap) (cfg cfg' : Config) :
  setConfigFromOptions env options cfg = (cfg', Ok ()) →
  setConfigFromOptions env options cfg' = (cfg', Ok ()).
Proof.
  destruct cfg as [[rd ps] [maddr seal] bo dr np ot]. config_steps.
  set (netName := default "" (asString (options !! Network))).
  config_cases options env; rewrite ?Hwm, ?Hma; cbn; try discriminate;
    repeat (case_bool_decide; cbn [negb]); try discriminate;
    intros [= <-]; cbn in *; rewrite ?Hwm, ?Hma; cbn;
    first [reflexivity | exfalso; congruence].
Qed.

Lemma setConfigFromOptions_idempotent_witness :
  let options : OptMap :=
    {[ WithMiner := VString "t01000"; OptionPresealedSectorDir := VString "/sealed";
       Network := VString "interop" ]} in
  let cfg' := (setConfigFromOptions Sample.env options Sample.defaultConfig).1 in
  setConfigFromOptions Sample.env options cfg' = (cfg', Ok ()).
Proof.
  apply (setConfigFromOptions_idempotent Sample.env
           {[ WithMiner := VString "t01000"; OptionPresealedSectorDir := VString "/sealed";
              Network := VString "interop" ]} Sample.defaultConfig).
  reflexivity.
Defined.

(** X12.  A [with-miner] string that does not parse ends the call with the
    parse error, and the config is left half-written: the sector root path
    option has been applied and the miner address field holds what the parser
    returned with its error, while the options after it
    ([auto-seal-interval-seconds], [miner-actor-address],
    [presealed-sector-dir], [network]) were not looked at. *)
Theorem setConfigFromOptions_bad_with_miner env (options : OptMap) (cfg : Config) m a e :
  asString (options !! WithMiner) = Some m →
  address_NewFromString env m = (a, Some e) →
  setConfigFromOptions env options cfg
  = (setMinerAddress a
       (match asString (options !! OptionSectorDir) with
        | Some dir => setRootDirPath dir cfg
        | None => cfg
        end),
     Err e).
Proof.
  intros Hwith Hparse. config_steps. rewrite Hwith, Hparse.
  by destruct (asString (options !! OptionSectorDir)).
Qed.

Lemma setConfigFromOptions_bad_with_miner_witness :
  setConfigFromOptions Sample.env
    {[ OptionSectorDir := VString "/sectors"; WithMiner := VString "f0";
       Network := VString "interop"; AutoSealIntervalSeconds := VString "soon" ]}
    Sample.defaultConfig
  = (setMinerAddress Undef (setRootDirPath "/sectors" Sample.defaultConfig),
     Err (Upstream "invalid address length")).
Proof.
  exact (setConfigFromOptions_bad_with_miner Sample.env
           {[ OptionSectorDir := VString "/sectors"; WithMiner := VString "f0";
              Network := VString "interop"; AutoSealIntervalSeconds := VString "soon" ]}
           Sample.defaultConfig "f0" Undef (Upstream "invalid address length")
           eq_refl eq_refl).
Defined.

(** *** Init option builder *)

(** X13.  A peer key file that cannot be read, or whose bytes do not parse
    as a private key, ends [getNodeInitOpts] with that error at once: the
    wallet key file is not opened, whatever it holds. *)
Theorem getNodeInitOpts_peer_failure env peerKeyFile walletKeyFile (w : World) e :
  peerKeyFile ≠ "" →
  ioutil_ReadFile env peerKeyFile = Err e
  ∨ (∃ data, ioutil_ReadFile env peerKeyFile = Ok data
             ∧ crypto_UnmarshalPrivateKey env data = Err e) →
  getNodeInitOpts env peerKeyFile walletKeyFile w
  = (withCall w (CallReadFile peerKeyFile), Err e).
Proof.
  intros Hne Hfail. unfold getNodeInitOpts, readFile, logCall. st_unfold.
  rewrite (bool_decide_eq_false_2 _ Hne). cbn.
  destruct Hfail as [-> | (data & -> & ->)]; reflexivity.
Qed.

Lemma getNodeInitOpts_peer_failure_witness :
  getNodeInitOpts Sample.env "missing.key" "wallet.json" Sample.world
  = (withCall Sample.world (CallReadFile "missing.key"),
     Err (Upstream "no such file or directory")).
Proof.
  apply (getNodeInitOpts_peer_failure Sample.env "missing.key" "wallet.json" Sample.world).
  - discriminate.
  - left. reflexivity.
Defined.

(** X14.  What a wallet key file that is given but unusable does to
    [getNodeInitOpts], once the peer key is dealt with: a file that cannot be
    opened and a file that does not decode end the call with that error, and
    a file that decodes to a nil result (JSON [null]) makes the access to its
    key list panic with a nil dereference. *)
Theorem getNodeInitOpts_wallet_failures env peerKeyFile walletKeyFile (w : World) pk :
  peerKeyGiven env peerKeyFile pk →
  walletKeyFile ≠ "" →
  (∀ e, os_Open env walletKeyFile = Err e →
        (getNodeInitOpts env peerKeyFile walletKeyFile w).2 = Err e)
  ∧ (∀ f e, os_Open env walletKeyFile = Ok f → json_Decode env f = Err e →
        (getNodeInitOpts env peerKeyFile walletKeyFile w).2 = Err e)
  ∧ (∀ f, os_Open env walletKeyFile = Ok f → json_Decode env f = Ok None →
        (getNodeInitOpts env peerKeyFile walletKeyFile w).2 = Panic NilDereference).
Proof.
  intros Hpk Hne.
  rewrite (getNodeInitOpts_wallet_part _ _ _ _ _ Hpk), (bool_decide_eq_false_2 _ Hne).
  repeat split.
  - by intros e ->.
  - by intros f e -> ->.
  - by intros f -> ->.
Qed.

Lemma getNodeInitOpts_wallet_failures_witness :
  (getNodeInitOpts Sample.env "peer.key" "missing.json" Sample.world).2
  = Err (Upstream "no such file or directory").
Proof.
  apply (proj1 (getNodeInitOpts_wallet_failures Sample.env "peer.key" "missing.json"
                  Sample.world (Some (MkPrivKey "peer"))
                  (peer_parsed Sample.env "peer.key" [Byte.x30] (MkPrivKey "peer")
                     ltac:(discriminate) eq_refl eq_refl)
                  ltac:(discriminate))).
  reflexivity.
Defined.

(** X15.  [getNodeInitOpts] only reads: it leaves the config files, the
    repo's config, its path and the block store as they were, and the calls it
    adds to the log are, in this order and each at most once, the read of the
    peer key file and the opening of the wallet key file. *)
Theorem getNodeInitOpts_reads_only env peerKeyFile walletKeyFile (w : World) :
  ∃ added,
    onlyLogged w (getNodeInitOpts env peerKeyFile walletKeyFile w).1 added
    ∧ added `sublist_of` [CallReadFile peerKeyFile; CallOsOpen walletKeyFile].
Proof.
  assert (Hcases : ∀ w' : World,
    w' = w ∨ w' = withCall w (CallReadFile peerKeyFile)
    ∨ w' = withCall w (CallOsOpen walletKeyFile)
    ∨ w' = withCall (withCall w (CallReadFile peerKeyFile)) (CallOsOpen walletKeyFile) →
    ∃ added, onlyLogged w w' added
             ∧ added `sublist_of` [CallReadFile peerKeyFile; CallOsOpen walletKeyFile]).
  { unfold onlyLogged, withCall. intros w' [->|[->|[->| ->]]]; cbn.
    - exists []. split; [destruct w; cbn; by rewrite app_nil_r|]. apply sublist_nil_l.
    - exists [CallReadFile peerKeyFile]. split; [done|].
      apply sublist_skip, sublist_nil_l.
    - exists [CallOsOpen walletKeyFile]. split; [done|].
      apply sublist_cons, sublist_skip, sublist_nil_l.
    - exists [CallReadFile peerKeyFile; CallOsOpen walletKeyFile].
      split; [by rewrite <- app_assoc|]. reflexivity. }
  apply Hcases.
  unfold getNodeInitOpts, readFile, osOpen, logCall, index, sliceFrom. st_unfold.
  destruct (bool_decide (peerKeyFile = "")); cbn;
    [|destruct (ioutil_ReadFile env peerKeyFile) as [data| | |]; cbn; auto;
      destruct (crypto_UnmarshalPrivateKey env data) as [k| | |]; cbn; auto];
    (destruct (bool_decide (walletKeyFile = "")); cbn; auto;
     destruct (os_Open env walletKeyFile) as [f| | |]; cbn; auto;
     destruct (json_Decode env f) as [[[keys]|]| | |]; cbn; auto;
     destruct keys as [|a rest]; cbn; auto;
     repeat (case_bool_decide || case_decide); cbn; auto).
Qed.

(** *** Bootstrap entry point *)

Section Log.
Context (P : Call → Prop).

#[global] Instance addsCalls_preorder : PreOrder (addsCalls P).
Proof.
  split.
  - intros w. exists []. by rewrite app_nil_r.
  - intros w1 w2 w3 (l1 & H1 & HP1) (l2 & H2 & HP2). exists (l1 ++ l2).
    split; [by rewrite H2, H1, app_assoc|by apply Forall_app].
Qed.

Lemma addsCalls_same (w w' : World) : calls w' = calls w → addsCalls P w w'.
Proof. intros H. exists []. by rewrite app_nil_r. Qed.

Lemma addsCalls_logCall c : P c → keeps (addsCalls P) (logCall c).
Proof. intros Hc w. exists [c]. split; [reflexivity|by constructor]. Qed.

Lemma addsCalls_modify (f : World → World) :
  (∀ w, calls (f w) = calls w) → keeps (addsCalls P) (modify f).
Proof. intros Hf w. apply addsCalls_same, Hf. Qed.

Lemma addsCalls_onRepoConfig {A} (m : ST Config A) : keeps (addsCalls P) (onRepoConfig m).
Proof.
  intros w. unfold onRepoConfig. destruct (m (repoConfig w)). by apply addsCalls_same.
Qed.

Lemma addsCalls_keepLog {A} (m : ST World A) : keeps (addsCalls P) (keepLog m).
Proof. intros w. unfold keepLog. destruct (m w). by apply addsCalls_same. Qed.

End Log.

Ltac log_step :=
  first
    [ apply addsCalls_logCall; solve [auto]
    | apply addsCalls_modify; intros ?; reflexivity
    | apply addsCalls_onRepoConfig
    | keeps_step ].

Lemma addsCalls_walkBack env (P : Call → Prop) fuel cur :
  (∀ c, P (CallBlockstoreGet c)) → keeps (addsCalls P) (walkBack env fuel cur).
Proof.
  intros HP. revert cur. induction fuel as [|fuel IH]; intros cur; cbn [walkBack]; unfold bsGet;
    repeat (apply IH || log_step).
Qed.

Lemma addsCalls_loadGenesis env (P : Call → Prop) fuel sourceName :
  (∀ path, P (CallOsOpen path)) →
  (sourceName ≠ "" → ∀ c, isGenesisCall c = true → P c) →
  keeps (addsCalls P) (loadGenesis env fuel sourceName).
Proof.
  intros Hopen Hgen. unfold loadGenesis. case_bool_decide as Hname; [log_step|].
  specialize (Hgen Hname).
  assert (∀ c, P (CallBlockstoreGet c)) by (intros c; by apply Hgen).
  assert (∀ url, P (CallHTTPGet url)) by (intros c; by apply Hgen).
  assert (P CallLoadCar) by (by apply Hgen).
  unfold openGenesisSource, extractGenesisBlock, LoadCar, httpGet, osOpen, bsGet.
  repeat ((apply addsCalls_walkBack; assumption) || log_step).
Qed.

Lemma addsCalls_getNodeInitOpts env (P : Call → Prop) peerKeyFile walletKeyFile :
  (∀ path, P (CallOsOpen path)) → (∀ path, P (CallReadFile path)) →
  keeps (addsCalls P) (getNodeInitOpts env peerKeyFile walletKeyFile).
Proof.
  intros Hopen Hread. unfold getNodeInitOpts, readFile, osOpen. repeat log_step.
Qed.

Lemma addsCalls_setDrandConfig env (P : Call → Prop) (options : OptMap) :
  (∀ addr, P (CallDrandConfigure addr)) → keeps (addsCalls P) (setDrandConfig env options).
Proof. intros Hd. unfold setDrandConfig. repeat log_step. Qed.

(** The log of a bootstrap run, for any property [P] that holds of the
    calls the steps before [ReplaceConfig] can make. *)
Lemma Run_log env fuel (options : OptMap) (w : World) (P : Call → Prop) :
  (∀ c, isGenesisCall c = false → isReplaceConfig c = false → isNodeInit c = false → P c) →
  (default "" (asString (options !! GenesisFile)) ≠ "" → ∀ c, isGenesisCall c = true → P c) →
  wp (Run env fuel options) w
     (λ w' r, ∃ added, calls w' = calls w ++ added ∧ runLog env options P added r).
Proof.
  intros Hother Hgen.
  assert (Hstop : ∀ (w1 : World) (r : outcome unit), addsCalls P w w1 → r ≠ Ok () →
            ∃ added, calls w1 = calls w ++ added ∧ runLog env options P added r).
  { intros w1 r (added & Hcalls & HP) Hr. exists added. split; [exact Hcalls|]. by left. }
  unfold Run.
  apply wp_bind, (wp_keeps (addsCalls P)); [log_step|].
  intros w1 [dir|e|p|] H1; try (apply Hstop; [exact H1|discriminate]).
  apply wp_bind, (wp_keeps (addsCalls P)); [unfold emit; repeat log_step|].
  intros w2 [[]|e|p|] H2; try (apply Hstop; [by etrans|discriminate]).
  apply wp_bind, (wp_keeps (addsCalls P)); [unfold InitFSRepo; repeat log_step|].
  intros w3 [[]|e|p|] H3; try (apply Hstop; [by do 2 (etrans; [eassumption|])|discriminate]).
  assert (H03 : addsCalls P w w3) by (by do 2 (etrans; [eassumption|])).
  clear H1 H2 H3.
  apply wp_bind, (wp_keeps (addsCalls P)); [unfold OpenFSRepo; repeat log_step|].
  intros w4 [[]|e|p|] H4; try (apply Hstop; [by etrans|discriminate]).
  apply wp_bind. unfold wp at 1.
  pose proof (addsCalls_loadGenesis env P fuel
                (default "" (asString (options !! GenesisFile)))
                (λ path, Hother (CallOsOpen path) eq_refl eq_refl eq_refl) Hgen w4) as H5.
  assert (Hgif : ∀ gif, default "" (asString (options !! GenesisFile)) = "" →
            (loadGenesis env fuel (default "" (asString (options !! GenesisFile))) w4).2 = Ok gif →
            gif = MakeGenesisFunc).
  { intros gif ->. unfold loadGenesis. rewrite bool_decide_eq_true_2 by done.
    cbn. congruence. }
  destruct (loadGenesis env fuel _ w4) as [w5 [gif|e|p|]]; cbn [fst snd] in *;
    try (apply Hstop; [by do 2 (etrans; [eassumption|])|discriminate]).
  specialize (Hgif gif). 
  assert (H05 : addsCalls P w w5) by (by do 2 (etrans; [eassumption|])).
  clear H4 H5 H03.
  apply wp_bind, (wp_keeps (addsCalls P)).
  { apply addsCalls_getNodeInitOpts; intros; by apply Hother. }
  intros w6 [initopts|e|p|] H6; try (apply Hstop; [by etrans|discriminate]).
  apply wp_bind, (wp_keeps (addsCalls P)); [apply addsCalls_onRepoConfig|].
  intros w7 [[]|e|p|] H7;
    try (apply Hstop; [by do 2 (etrans; [eassumption|])|discriminate]).
  apply wp_bind, (wp_keeps (addsCalls P)).
  { apply addsCalls_setDrandConfig. intros; by apply Hother. }
  intros w8 [[]|e|p|] H8;
    try (apply Hstop; [by do 3 (etrans; [eassumption|])|discriminate]).
  assert (H08 : addsCalls P w w8) by (by do 3 (etrans; [eassumption|])).
  clear H05 H6 H7 H8. destruct H08 as (pre & Hpre & HP).
  unfold wp, ReplaceConfig, nodeInit, keepLog, logCall. st_unfold. cbn.
  destruct (repo_writeConfig env (repoPath w8) (repoConfig w8)) as [[]|e|p|] eqn:Hwrite; cbn.
  - destruct (node_Init env gif initopts _) as [w9 r9]. cbn.
    exists (pre ++ [CallReplaceConfig (repoConfig w8); CallNodeInit gif initopts]).
    split; [rewrite Hpre, <- !app_assoc; reflexivity|].
    right. right. exists pre, (repoConfig w8), (repoPath w8), gif, initopts.
    repeat split; try assumption. intros Hsrc. by apply Hgif.
  - exists (pre ++ [CallReplaceConfig (repoConfig w8)]).
    split; [rewrite Hpre, <- !app_assoc; reflexivity|].
    right. left. exists pre, (repoConfig w8), (repoPath w8). by rewrite Hwrite.
  - exists (pre ++ [CallReplaceConfig (repoConfig w8)]).
    split; [rewrite Hpre, <- !app_assoc; reflexivity|].
    right. left. exists pre, (repoConfig w8), (repoPath w8). by rewrite Hwrite.
  - exists (pre ++ [CallReplaceConfig (repoConfig w8)]).
    split; [rewrite Hpre, <- !app_assoc; reflexivity|].
    right. left. exists pre, (repoConfig w8), (repoPath w8). by rewrite Hwrite.
Qed.


(** X17.  Without a [genesis-file] option, or with an empty one, a bootstrap
    run never fetches a URL, loads an archive or reads a block, and the
    genesis it hands to [node.Init], when it gets there, is the local
    generator. *)
Theorem Run_without_genesis_file env fuel (options : OptMap) (w : World) :
  default "" (asString (options !! GenesisFile)) = "" →
  ∃ added,
    calls (Run env fuel options w).1 = calls w ++ added
    ∧ Forall (λ c, isGenesisCall c = false) added
    ∧ (∀ gif opts, CallNodeInit gif opts ∈ added → gif = MakeGenesisFunc).
Proof.
  intros Hsrc.
  destruct (Run_log env fuel options w
              (λ c, isGenesisCall c = false ∧ isNodeInit c = false))
    as (added & Hcalls & Hlog).
  { by intros c ? _ ?. }
  { intros Hne. by destruct Hne. }
  exists added. split; [exact Hcalls|].
  assert (Hweak : ∀ pre, Forall (λ c, isGenesisCall c = false ∧ isNodeInit c = false) pre →
            Forall (λ c, isGenesisCall c = false) pre).
  { intros pre HP. eapply Forall_impl; [exact HP|]. by intros c [? _]. }
  assert (Hpre : ∀ pre gif opts,
            Forall (λ c, isGenesisCall c = false ∧ isNodeInit c = false) pre →
            CallNodeInit gif opts ∉ pre).
  { intros pre gif opts HP Hin. rewrite Forall_forall in HP.
    by destruct (HP _ Hin) as [_ ?]. }
  destruct Hlog as [[HP Hr] | [(pre & cfg & dir & -> & HP & Hw & Hr)
                              | (pre & cfg & dir & gif0 & opts0 & -> & HP & Hw & Hgif)]].
  - split; [by apply Hweak|]. intros gif opts Hin. by destruct (Hpre _ _ _ HP Hin).
  - split; [apply Forall_app; split; [by apply Hweak|by repeat constructor]|].
    intros gif opts Hin. apply elem_of_app in Hin as [Hin|Hin].
    + by destruct (Hpre _ _ _ HP Hin).
    + rewrite elem_of_cons, elem_of_nil in Hin. by destruct Hin as [Hin|[]].
  - split; [apply Forall_app; split; [by apply Hweak|by repeat constructor]|].
    intros gif opts Hin. apply elem_of_app in Hin as [Hin|Hin].
    + by destruct (Hpre _ _ _ HP Hin).
    + rewrite !elem_of_cons, elem_of_nil in Hin.
      destruct Hin as [Hin|[Hin|[]]]; [discriminate|]. injection Hin as -> ->.
      by apply Hgif.
Qed.

Lemma Run_without_genesis_file_witness :
  ∃ added,
    calls (Run Sample.env 0 {[ WithMiner := VString "t01000" ]} Sample.world).1
    = calls Sample.world ++ added
    ∧ Forall (λ c, isGenesisCall c = false) added
    ∧ (∀ gif opts, CallNodeInit gif opts ∈ added → gif = MakeGenesisFunc).
Proof.
  apply (Run_without_genesis_file Sample.env 0 {[ WithMiner := VString "t01000" ]}
           Sample.world).
  reflexivity.
Defined.
